(** * redbird: routing table, resolver pipeline and proxy engine

    A shallow embedding of the reverse proxy module: the URL helpers, the
    routing table with [register] and [unregister], the resolver pipeline,
    the request rewriting of [_getRouteTarget], the dispatch of the
    listeners and the default error handler.

    JavaScript strings are [string], objects used as maps are [gmap], arrays
    are lists. A function that may throw returns an [Outcome]. State is
    passed explicitly: the instance ([ReverseProxy]) and what the module
    shares among its instances ([Module_]). A route object that is changed
    in place is written back to where it lives (a bucket of the table or
    the route cache). Logging is left out throughout. *)

From Stdlib Require Import Ascii ZArith Lia Bool.
From Stdlib Require String.
From stdpp Require Import base option list sorting gmap strings.



(** ** JavaScript string primitives *)

Module Js.

(** [s.slice(0, n)] *)
Definition slice0 (n : nat) (s : string) : string := String.substring 0 n s.

(** [s.substr(n)] *)
Fixpoint substr (n : nat) (s : string) : string :=
  match n, s with
  | 0, _ => s
  | S n', String _ s' => substr n' s'
  | S _, EmptyString => EmptyString
  end.

(** [s[i] === c]; an index past the end reads [undefined], equal to no
    character. *)
Definition char_at_is (s : string) (i : nat) (c : ascii) : bool :=
  match String.get i s with
  | Some d => Ascii.eqb d c
  | None => false
  end.

(** Truthiness of a value that is a string, [null] or [undefined]. *)
Definition truthy (o : option string) : bool :=
  match o with
  | Some s => negb (String.eqb s "")
  | None => false
  end.

(** [o || d] for such a value. *)
Definition or_else (o : option string) (d : string) : string :=
  match o with
  | Some s => if String.eqb s "" then d else s
  | None => d
  end.

End Js.

(** ** URL helpers *)

(** [startsWith(input, str)] *)
Definition startsWith (input str : string) : bool :=
  String.eqb (Js.slice0 (String.length str) input) str
  && ((String.length input =? String.length str)%nat
      || Js.char_at_is input (String.length str) "/"
      || Js.char_at_is input (String.length str) "?").

(** [setHttp(link)]: the search for [/^http[s]?\:\/\//] fails exactly when
    neither scheme prefixes the link. *)
Definition setHttp (link : string) : string :=
  if String.prefix "http://" link || String.prefix "https://" link
  then link
  else "http://" +:+ link.


(** ASCII part of [String.prototype.toLowerCase]. *)
Definition lower_ascii (c : ascii) : ascii :=
  let n := nat_of_ascii c in
  if (65 <=? n)%nat && (n <=? 90)%nat then ascii_of_nat (n + 32) else c.

Fixpoint toLowerCase (s : string) : string :=
  match s with
  | EmptyString => EmptyString
  | String c s' => String (lower_ascii c) (toLowerCase s')
  end.

(** [s.split(':')[0]] *)
Fixpoint before_colon (s : string) : string :=
  match s with
  | EmptyString => EmptyString
  | String c s' => if Ascii.eqb c ":" then EmptyString else String c (before_colon s')
  end.

(** ** Node's [path.posix.join]

    The platform function the proxy calls, written after Node's [lib/path.js]:
    the non-empty arguments are glued with a slash and the result is
    normalised segment by segment. *)
Module Path.

Fixpoint split (s : string) : list string :=
  match s with
  | EmptyString => [EmptyString]
  | String c s' =>
      if Ascii.eqb c "/" then EmptyString :: split s'
      else match split s' with
           | seg :: rest => String c seg :: rest
           | [] => [String c EmptyString]
           end
  end.

Definition last_is_dotdot (res : list string) : bool :=
  match last res with
  | Some seg => String.eqb seg ".."
  | None => false
  end.

(** One separator-terminated segment of [normalizeString]. *)
Definition step (allowAboveRoot : bool) (res : list string) (seg : string)
  : list string :=
  if String.eqb seg "" || String.eqb seg "." then res
  else if String.eqb seg ".." then
    match res with
    | _ :: _ =>
        if last_is_dotdot res
        then (if allowAboveRoot then res ++ [".."] else res)
        else removelast res
    | [] => if allowAboveRoot then [".."] else []
    end
  else res ++ [seg].

Definition normalizeString (path : string) (allowAboveRoot : bool) : string :=
  String.concat "/" (fold_left (step allowAboveRoot) (split path) []).

Definition ends_with_slash (path : string) : bool :=
  match String.length path with
  | 0 => false
  | S n => Js.char_at_is path n "/"
  end.

Definition normalize (path : string) : string :=
  if String.eqb path "" then "."
  else
    let isAbsolute := Js.char_at_is path 0 "/" in
    let trailingSeparator := ends_with_slash path in
    let p := normalizeString path (negb isAbsolute) in
    if String.eqb p "" then
      if isAbsolute then "/" else if trailingSeparator then "./" else "."
    else
      let p := if trailingSeparator then p +:+ "/" else p in
      if isAbsolute then "/" +:+ p else p.

Definition join (args : list string) : string :=
  match List.filter (fun a => negb (String.eqb a "")) args with
  | [] => "."
  | parts => normalize (String.concat "/" parts)
  end.

End Path.

(** ** Data model *)

(** The result of a call, or the exception it raised. *)
Inductive Error := MkError (code : option string) (message : string).

Definition err_code (e : Error) : option string :=
  let 'MkError c _ := e in c.
Definition err_message (e : Error) : string :=
  let 'MkError _ m := e in m.

Definition AssertionError (message : string) : Error := MkError None message.
Definition TypeError (message : string) : Error := MkError None message.

Inductive Outcome (A : Type) : Type :=
| Returned (a : A)
| Thrown (e : Error).
Arguments Returned {A} a.
Arguments Thrown {A} e.

#[global] Instance outcome_ret : MRet Outcome := fun A a => Returned a.

#[global] Instance outcome_bind : MBind Outcome := fun A B k o =>
  match o with
  | Returned a => k a
  | Thrown e => Thrown e
  end.

Definition assert (b : bool) (message : string) : Outcome unit :=
  if b then Returned tt else Thrown (AssertionError message).

(** A URL as [url.parse] gives it, with the fields the proxy reads. *)
Record Url := mkUrl {
  protocol : string;
  hostname : string;
  port : option string;
  host : string;
  pathname : option string;
  href : string
}.

(** A [src] or [target] argument: a string or an already parsed URL. *)
Inductive UrlArg :=
| UrlString (s : string)
| UrlObject (u : Url).

Definition arg_truthy (a : UrlArg) : bool :=
  match a with
  | UrlString s => negb (String.eqb s "")
  | UrlObject _ => true
  end.

(** A target: the parsed URL with the two flags [buildTarget] attaches.
    [sslRedirect] is read only for its truthiness, so [undefined] is
    [false]. *)
Record Target := mkTarget {
  target_url : Url;
  sslRedirect : bool;
  useTargetHostHeader : bool
}.

(** The calls made on a response (or, on the upgrade path, a raw socket). *)
Inductive ResCall :=
| WriteHead (status : nat) (location : option string)
| SetStatusCode (status : nat)
| WriteChunk (chunk : string)
| EndWith (chunk : option string).

Record Response := mkResponse {
  has_writeHead : bool;   (* [res.writeHead] is defined: false for a socket *)
  headersSent : bool;
  calls : list ResCall
}.

(** A call is recorded; [writeHead] and [end] send the headers. *)
Definition call (c : ResCall) (res : Response) : Response :=
  {| has_writeHead := has_writeHead res;
     headersSent :=
       match c with
       | WriteHead _ _ | EndWith _ | WriteChunk _ => true
       | SetStatusCode _ => headersSent res
       end;
     calls := calls res ++ [c] |}.

Record Request := mkRequest {
  url : string;                      (* [req.url] *)
  _url : option string;              (* [req._url], the saved original *)
  req_host : option string;          (* [req.host] *)
  header_host : option string;       (* [req.headers.host] *)
  header_x_forwarded_host : option string
}.

Definition set_url (u : string) (req : Request) : Request :=
  {| url := u; _url := _url req; req_host := req_host req;
     header_host := header_host req;
     header_x_forwarded_host := header_x_forwarded_host req |}.

Definition save_url (u : string) (req : Request) : Request :=
  {| url := url req; _url := Some u; req_host := req_host req;
     header_host := header_host req;
     header_x_forwarded_host := header_x_forwarded_host req |}.

Definition set_req_host (h : string) (req : Request) : Request :=
  {| url := url req; _url := _url req; req_host := Some h;
     header_host := header_host req;
     header_x_forwarded_host := header_x_forwarded_host req |}.

(** What an [onRequest] hook returns: nothing, [false], or a target. *)
Inductive HookResult :=
| HUndefined
| HFalse
| HTarget (t : Target).

(** [onRequest(req, res, target)]: the hook may change the request and the
    response it is given ([res] is [undefined] on the upgrade path). *)
Definition OnRequest : Type :=
  Request -> option Response -> Target ->
  Request * option Response * HookResult.

Record LetsencryptOpts := mkLetsencryptOpts {
  email : string;
  production : bool
}.

(** [opts.ssl]; [ssl: true] is the record with every field absent. *)
Record SslOpts := mkSslOpts {
  key : option string;
  cert : option string;
  ca : option string;
  letsencrypt : option LetsencryptOpts;
  redirect : option bool
}.

(** Options of [http-proxy], kept as given. *)
Definition HttpProxyOpts : Type := list (string * string).

(** Route options. The response and error hooks are named by a number. *)
Record RouteOpts := mkRouteOpts {
  ssl : option SslOpts;
  opt_useTargetHostHeader : option bool;
  changeOrigin : option bool;
  onRequest : option OnRequest;
  onResponse : option nat;
  onError : option nat;
  httpProxy : option HttpProxyOpts
}.

(** [Object.assign({}, undefined)] *)
Definition no_opts : RouteOpts :=
  {| ssl := None; opt_useTargetHostHeader := None; changeOrigin := None;
     onRequest := None; onResponse := None; onError := None;
     httpProxy := None |}.

(** A forwarder: the default one or the one cached under a key. *)
Inductive ProxyHandle :=
| DefaultProxy
| OriginProxy (proxyKey : string).

(** The round-robin index, a JavaScript number: [x % 0] is [NaN]. *)
Inductive RrIndex :=
| Idx (n : nat)
| NaN.

(** A route. A route built from a resolver's answer has neither [opts] nor
    [proxy]; a route of the table has no [isResolved]. *)
Record Route := mkRoute {
  path : string;
  rr : RrIndex;
  urls : list Target;
  opts : option RouteOpts;
  proxy : option ProxyHandle;
  isResolved : bool
}.

Definition set_urls (us : list Target) (r : Route) : Route :=
  {| path := path r; rr := rr r; urls := us; opts := opts r;
     proxy := proxy r; isResolved := isResolved r |}.

Definition set_rr (i : RrIndex) (r : Route) : Route :=
  {| path := path r; rr := i; urls := urls r; opts := opts r;
     proxy := proxy r; isResolved := isResolved r |}.

(** [route.urls.push(target)] *)
Definition push_url (t : Target) (r : Route) : Route :=
  set_urls (urls r ++ [t]) r.

(** The [url] field of a resolver's descriptor object. *)
Inductive UrlField :=
| OneUrl (u : UrlArg)
| ManyUrls (us : list UrlArg).

Record Descriptor := mkDescriptor {
  d_url : option UrlField;
  d_path : option string;
  d_opts : option RouteOpts
}.

(** The libraries behind [prepareUrl] and [buildRoute]: [url.parse],
    [valid-url] (either of its two tests) and [object-hash]. *)
Class Platform := {
  parseUrl : string -> Url;
  isHttpOrHttpsUri : string -> bool;
  hash : Descriptor -> string
}.

(** An entry of [this.certs]: a secure context built from the given files,
    or the key set to [undefined] so that the default certificate is used. *)
Inductive CertEntry :=
| Credentials (key cert ca : option string)
| UndefinedCert.

(** Where a resolved route object lives: in a bucket of the routing table,
    in the module's route cache, or with the resolver that made it. *)
Inductive RouteRef :=
| InTable (hostname : string) (index : nat)
| InCache (cacheKey : string)
| Foreign.

(** The value a resolver answers with, once its promise is fulfilled. A
    route object of the table comes with its place in the table; it is what
    the table resolver answers with. *)
Inductive ResolverResult :=
| RUndefined
| ROther (truthy : bool)           (* a number or a boolean *)
| RString (s : string)
| RTableRoute (hostname : string) (index : nat) (r : Route)
| RRouteObject (r : Route)         (* has its own [urls] and [path] *)
| RDescriptor (d : Descriptor).

(** A resolver is a function object, named by a number; [0] names
    [_defaultResolver]. The others behave as the environment says: the
    promise of their answer is fulfilled with a value, or rejected. *)
Definition ResolverEnv : Type :=
  nat -> option string -> string -> Request -> Outcome ResolverResult.

Definition defaultResolverId : nat := 0.

(** The responder for a request that matches no route. *)
Inductive Responder :=
| DefaultNotFound
| Callback (f : nat).

(** An argument that may or may not be a function. *)
Inductive JsValue :=
| VFunction (f : nat)
| VNotFunction.

(** Module-level state, shared by every instance: the [respondNotFound]
    variable, the route cache (its eviction is not modelled) and the
    [priority] property of the resolver function objects. *)
Record Module_ := mkModule {
  respondNotFound : Responder;
  routeCache : gmap string Route;
  priority : gmap nat Z
}.

Definition set_respondNotFound (r : Responder) (m : Module_) : Module_ :=
  {| respondNotFound := r; routeCache := routeCache m; priority := priority m |}.

Definition set_routeCache (c : gmap string Route) (m : Module_) : Module_ :=
  {| respondNotFound := respondNotFound m; routeCache := c;
     priority := priority m |}.

Definition set_priority (p : gmap nat Z) (m : Module_) : Module_ :=
  {| respondNotFound := respondNotFound m; routeCache := routeCache m;
     priority := p |}.

(** An instance of [ReverseProxy]. *)
Record ReverseProxy := mkReverseProxy {
  cluster_master : bool;              (* [opts.cluster && cluster.isMaster] *)
  preferForwardedHost : bool;
  opts_httpProxy : HttpProxyOpts;     (* [this.opts.httpProxy] *)
  opts_errorHandler : option nat;
  letsencrypt_path : option string;   (* [this.opts.letsencrypt.path] *)
  renewWithin : option Z;
  letsencryptHost : option string;
  ssl_redirect_port : option string;  (* [opts.ssl.redirectPort || opts.ssl.port] *)
  routing : gmap string (list Route);
  certs : option (gmap string CertEntry);
  httpsServers : nat;                 (* [this.httpsServers.length] *)
  _proxies : gmap string ProxyHandle;
  resolvers : list nat;
  certificate_updates : list (string * string * bool * Z)
}.

Definition set_routing (t : gmap string (list Route)) (p : ReverseProxy)
  : ReverseProxy :=
  {| cluster_master := cluster_master p;
     preferForwardedHost := preferForwardedHost p;
     opts_httpProxy := opts_httpProxy p;
     opts_errorHandler := opts_errorHandler p;
     letsencrypt_path := letsencrypt_path p;
     renewWithin := renewWithin p;
     letsencryptHost := letsencryptHost p;
     ssl_redirect_port := ssl_redirect_port p;
     routing := t;
     certs := certs p;
     httpsServers := httpsServers p;
     _proxies := _proxies p;
     resolvers := resolvers p;
     certificate_updates := certificate_updates p |}.

Definition set_certs (c : option (gmap string CertEntry)) (p : ReverseProxy)
  : ReverseProxy :=
  {| cluster_master := cluster_master p;
     preferForwardedHost := preferForwardedHost p;
     opts_httpProxy := opts_httpProxy p;
     opts_errorHandler := opts_errorHandler p;
     letsencrypt_path := letsencrypt_path p;
     renewWithin := renewWithin p;
     letsencryptHost := letsencryptHost p;
     ssl_redirect_port := ssl_redirect_port p;
     routing := routing p;
     certs := c;
     httpsServers := httpsServers p;
     _proxies := _proxies p;
     resolvers := resolvers p;
     certificate_updates := certificate_updates p |}.

Definition set_proxies (c : gmap string ProxyHandle) (p : ReverseProxy)
  : ReverseProxy :=
  {| cluster_master := cluster_master p;
     preferForwardedHost := preferForwardedHost p;
     opts_httpProxy := opts_httpProxy p;
     opts_errorHandler := opts_errorHandler p;
     letsencrypt_path := letsencrypt_path p;
     renewWithin := renewWithin p;
     letsencryptHost := letsencryptHost p;
     ssl_redirect_port := ssl_redirect_port p;
     routing := routing p;
     certs := certs p;
     httpsServers := httpsServers p;
     _proxies := c;
     resolvers := resolvers p;
     certificate_updates := certificate_updates p |}.

Definition set_resolvers (l : list nat) (p : ReverseProxy) : ReverseProxy :=
  {| cluster_master := cluster_master p;
     preferForwardedHost := preferForwardedHost p;
     opts_httpProxy := opts_httpProxy p;
     opts_errorHandler := opts_errorHandler p;
     letsencrypt_path := letsencrypt_path p;
     renewWithin := renewWithin p;
     letsencryptHost := letsencryptHost p;
     ssl_redirect_port := ssl_redirect_port p;
     routing := routing p;
     certs := certs p;
     httpsServers := httpsServers p;
     _proxies := _proxies p;
     resolvers := l;
     certificate_updates := certificate_updates p |}.

Definition add_certificate_update (u : string * string * bool * Z)
    (p : ReverseProxy) : ReverseProxy :=
  {| cluster_master := cluster_master p;
     preferForwardedHost := preferForwardedHost p;
     opts_httpProxy := opts_httpProxy p;
     opts_errorHandler := opts_errorHandler p;
     letsencrypt_path := letsencrypt_path p;
     renewWithin := renewWithin p;
     letsencryptHost := letsencryptHost p;
     ssl_redirect_port := ssl_redirect_port p;
     routing := routing p;
     certs := certs p;
     httpsServers := httpsServers p;
     _proxies := _proxies p;
     resolvers := resolvers p;
     certificate_updates := certificate_updates p ++ [u] |}.

(** ** Sorting and de-duplication as lodash does them *)

(** [_.sortBy] is a stable ascending sort; [le x y] says that the sort key of
    [x] is at most that of [y]. An element is put in front of the first one
    that is not smaller, so equal keys keep their order. *)
Fixpoint insert_by {A : Type} (le : A -> A -> bool) (x : A) (l : list A)
  : list A :=
  match l with
  | [] => [x]
  | y :: l' => if le x y then x :: l else y :: insert_by le x l'
  end.

Definition sortBy {A : Type} (le : A -> A -> bool) (l : list A) : list A :=
  foldr (insert_by le) [] l.

(** [_.uniq]: the first occurrence of each value is kept. *)
Fixpoint uniq_from {A : Type} `{EqDecision A} (seen l : list A) : list A :=
  match l with
  | [] => []
  | x :: l' =>
      if bool_decide (x ∈ seen) then uniq_from seen l'
      else x :: uniq_from (x :: seen) l'
  end.

Definition uniq {A : Type} `{EqDecision A} (l : list A) : list A :=
  uniq_from [] l.

(** The key [-_route.path.length]: longer paths first. *)
Definition longer_path_first (r1 r2 : Route) : bool :=
  (String.length (path r2) <=? String.length (path r1))%nat.

(** Ascending [priority], a missing one counting as the greatest. *)
Definition priority_le (prio : gmap nat Z) (a b : nat) : bool :=
  match prio !! a, prio !! b with
  | Some x, Some y => (x <=? y)%Z
  | Some _, None => true
  | None, Some _ => false
  | None, None => true
  end.

(** [_.find(host, { path: pathname })] and the search loop of
    [unregister]: the first route with that path, and its index. *)
Definition find_route (pathname : string) (host : list Route)
  : option (nat * Route) :=
  list_find (fun r => path r = pathname) host.

Definition ONE_MONTH : Z := 60 * 60 * 24 * 1000 * 30.

(** ** Registration *)

Section Registration.
Context `{Platform}.

(** [prepareUrl(url)] *)
Definition prepareUrl (u : UrlArg) : Outcome Url :=
  match u with
  | UrlString s =>
      let link := setHttp s in
      _ ← assert (isHttpOrHttpsUri link)
            ("uri is not a valid http uri " +:+ link);
      mret (parseUrl link)
  | UrlObject o => mret o
  end.

(** [ReverseProxy.buildTarget(target, opts)] *)
Definition buildTarget (target : UrlArg) (o : option RouteOpts)
  : Outcome Target :=
  u ← prepareUrl target;
  mret {| target_url := u;
          sslRedirect :=
            match o ≫= ssl with
            | Some s => negb (bool_decide (redirect s = Some false))
            | None => false
            end;
          useTargetHostHeader :=
            bool_decide (o ≫= opt_useTargetHostHeader = Some true) |}.

(** The cache key of [_getProxy]: the picked fields, each as [name,value]
    or empty, joined by slashes. *)
Definition proxyKey (t : Url) : string :=
  let mapper (x : option string) (k : string) :=
    if Js.truthy x then k +:+ "," +:+ Js.or_else x "" else "" in
  String.concat "/"
    [mapper (Some (protocol t)) "protocol";
     mapper (Some (hostname t)) "hostname";
     mapper (port t) "port"].

(** [_getProxy(src, target, opts)] *)
Definition _getProxy (this : ReverseProxy) (src : Url) (target : Target)
    (o : option RouteOpts) : ProxyHandle * ReverseProxy :=
  let changeOrigin :=
    match o ≫= changeOrigin with
    | Some b => b
    | None =>
        negb (String.eqb (hostname src) (hostname (target_url target)))
        && String.eqb (protocol (target_url target)) "https:"
    end in
  if negb changeOrigin then (DefaultProxy, this)
  else
    let k := proxyKey (target_url target) in
    match _proxies this !! k with
    | Some p => (p, this)
    | None =>
        (OriginProxy k, set_proxies (<[k := OriginProxy k]> (_proxies this)) this)
    end.

(** The certificate part of [register]. [None] is the early [return] taken
    when Let's Encrypt is asked for without a certificate path. *)
Definition register_certs (this : ReverseProxy) (src : Url)
    (o : option RouteOpts) : Outcome (option ReverseProxy) :=
  match o ≫= ssl with
  | None => mret (Some this)
  | Some s =>
      _ ← assert (0 <? httpsServers this)%nat
            "Cannot register https routes without defining a ssl port";
      match certs this with
      | None => Thrown (TypeError "Cannot read property of undefined")
      | Some cs =>
          match cs !! hostname src with
          | Some (Credentials _ _ _) => mret (Some this)
          | _ =>
              if Js.truthy (key s) || Js.truthy (cert s) || Js.truthy (ca s)
              then
                mret (Some (set_certs
                  (Some (<[hostname src := Credentials (key s) (cert s) (ca s)]> cs))
                  this))
              else
                match letsencrypt s with
                | Some le =>
                    if Js.truthy (letsencrypt_path this) then
                      let within :=
                        match renewWithin this with
                        | Some w => if (w =? 0)%Z then ONE_MONTH else w
                        | None => ONE_MONTH
                        end in
                      mret (Some (add_certificate_update
                        (hostname src, email le, production le, within) this))
                    else mret None
                | None =>
                    mret (Some (set_certs
                      (Some (<[hostname src := UndefinedCert]> cs)) this))
                end
          end
      end
  end.

(** The routing part of [register]: the bucket of the host is looked up or
    created, the route with the same path is looked up or created (and the
    bucket sorted), and the target is pushed on it. A new route object is
    the one that sits in the sorted bucket, so the push shows there. *)
Definition register_route (this : ReverseProxy) (src : Url)
    (target : Target) (o : option RouteOpts) : ReverseProxy :=
  let host := default [] (routing this !! hostname src) in
  let pathname := Js.or_else (pathname src) "/" in
  match find_route pathname host with
  | Some (i, route) =>
      set_routing
        (<[hostname src := <[i := push_url target route]> host]> (routing this))
        this
  | None =>
      let '(proxy, this) := _getProxy this src target o in
      let route :=
        {| path := pathname; rr := Idx 0; urls := [];
           opts := Some (default no_opts o); proxy := Some proxy;
           isResolved := false |} in
      set_routing
        (<[hostname src :=
             sortBy longer_path_first (host ++ [push_url target route])]>
           (routing this))
        this
  end.

(** [register(src, target, opts)], in its positional call shape. *)
Definition register (this : ReverseProxy) (src target : UrlArg)
    (o : option RouteOpts) : Outcome ReverseProxy :=
  if cluster_master this then mret this
  else
    _ ← assert (arg_truthy src && arg_truthy target)
          "Cannot register a new route with unspecified src or target";
    src ← prepareUrl src;
    target ← buildTarget target o;
    with_certs ← register_certs this src o;
    match with_certs with
    | None => mret this
    | Some this => mret (register_route this src target o)
    end.

(** [unregister(src, target)]; the renewal timer of a dropped certificate
    is not modelled. *)
Definition unregister (this : ReverseProxy) (src : UrlArg)
    (target : option UrlArg) : Outcome ReverseProxy :=
  if cluster_master this then mret this
  else if negb (arg_truthy src) then mret this
  else
    src ← prepareUrl src;
    let routes := default [] (routing this !! hostname src) in
    let pathname := Js.or_else (pathname src) "/" in
    match find_route pathname routes with
    | None => mret this
    | Some (i, route) =>
        remaining ←
          match target with
          | Some t =>
              if arg_truthy t then
                t ← prepareUrl t;
                mret (filter (fun u => href (target_url u) ≠ href t)
                        (urls route))
              else mret []
          | None => mret []
          end;
        match remaining with
        | [] =>
            mret (set_certs (delete (hostname src) <$> certs this)
                   (set_routing
                      (<[hostname src := delete i routes]> (routing this))
                      this))
        | _ =>
            mret (set_routing
                    (<[hostname src := <[i := set_urls remaining route]> routes]>
                       (routing this))
                    this)
        end
    end.

(** ** The resolver pipeline *)

(** A function object without a [priority] of its own is given priority 0. *)
Definition default_priority (prio : gmap nat Z) (resolveObj : nat)
  : gmap nat Z :=
  match prio !! resolveObj with
  | Some _ => prio
  | None => <[resolveObj := 0%Z]> prio
  end.

(** [addResolver(resolver)], given the functions to add. *)
Definition addResolver (m : Module_) (this : ReverseProxy)
    (resolver : list nat) : Module_ * ReverseProxy :=
  if cluster_master this then (m, this)
  else
    let prio := foldl default_priority (priority m) resolver in
    let pushed := resolvers this ++ resolver in
    (set_priority prio m,
     set_resolvers (reverse (sortBy (priority_le prio) (uniq pushed))) this).

(** [removeResolver(resolver)] *)
Definition removeResolver (this : ReverseProxy) (resolver : nat)
  : ReverseProxy :=
  if cluster_master this then this
  else set_resolvers (filter (fun r => r ≠ resolver) (resolvers this)) this.

End Registration.

(** ** Resolution *)

Section Requests.
Context `{Platform}.

(** [_defaultResolver(host, url)] *)
Definition _defaultResolver (this : ReverseProxy) (host : option string)
    (url : string) : ResolverResult :=
  if negb (Js.truthy host) then RUndefined
  else
    let host := Js.or_else host "" in
    let url := if String.eqb url "" then "/" else url in
    match routing this !! host with
    | Some routes =>
        match list_find
                (fun r => Is_true (String.eqb (path r) "/"
                                   || startsWith url (path r)))
                routes with
        | Some (i, route) => RTableRoute host i route
        | None => RUndefined
        end
    | None => RUndefined
    end.

(** Truthiness of a resolver's answer. *)
Definition answer_truthy (x : ResolverResult) : bool :=
  match x with
  | RUndefined => false
  | ROther b => b
  | RString s => negb (String.eqb s "")
  | RTableRoute _ _ _ | RRouteObject _ | RDescriptor _ => true
  end.

(** [ReverseProxy.buildRoute(route)]; [None] is [null]. *)
Definition buildRoute (m : Module_) (x : ResolverResult)
  : Outcome (Module_ * option (RouteRef * Route)) :=
  match x with
  | RUndefined | ROther _ => mret (m, None)
  | RTableRoute h i r => mret (m, Some (InTable h i, r))
  | RRouteObject r => mret (m, Some (Foreign, r))
  | RString s =>
      match routeCache m !! s with
      | Some entry => mret (m, Some (InCache s, entry))
      | None =>
          t ← buildTarget (UrlString s) None;
          let routeObject :=
            {| path := "/"; rr := Idx 0; urls := [t]; opts := None;
               proxy := None; isResolved := true |} in
          mret (set_routeCache (<[s := routeObject]> (routeCache m)) m,
                Some (InCache s, routeObject))
      end
  | RDescriptor d =>
      let cacheKey := hash d in
      match routeCache m !! cacheKey with
      | Some entry => mret (m, Some (InCache cacheKey, entry))
      | None =>
          match d_url d with
          | None => mret (m, None)
          | Some field =>
              let us := match field with
                        | OneUrl u => [u]
                        | ManyUrls us => us
                        end in
              ts ← mapM (fun u => buildTarget u (d_opts d)) us;
              let routeObject :=
                {| path := Js.or_else (d_path d) "/"; rr := Idx 0;
                   urls := ts; opts := None; proxy := None;
                   isResolved := true |} in
              mret (set_routeCache (<[cacheKey := routeObject]> (routeCache m)) m,
                    Some (InCache cacheKey, routeObject))
          end
      end
  end.

(** The scan of the resolvers' answers in [resolve]: the first answer
    that coerces to a route and passes the prefix check. An exception ends
    the scan with no route (the [catch] of [resolve]). *)
Fixpoint scan_results (m : Module_) (url : string)
    (resolverResults : list ResolverResult)
  : Module_ * option (RouteRef * Route) :=
  match resolverResults with
  | [] => (m, None)
  | x :: rest =>
      if answer_truthy x then
        match buildRoute m x with
        | Thrown _ => (m, None)
        | Returned (m, None) => scan_results m url rest
        | Returned (m, Some (ref, route)) =>
            if negb (isResolved route)
               || String.eqb (path route) "/"
               || startsWith url (path route)
            then (m, Some (ref, route))
            else scan_results m url rest
        end
      else scan_results m url rest
  end.

(** [resolve(host, url, req)]: every resolver is called, all answers are
    awaited, and one failure fails them all. *)
Definition resolve (m : Module_) (this : ReverseProxy) (env : ResolverEnv)
    (host : option string) (url : string) (req : Request)
  : Module_ * option (RouteRef * Route) :=
  let host := if Js.truthy host then toLowerCase <$> host else host in
  let promiseArray :=
    (fun r => if bool_decide (r = defaultResolverId)
              then Returned (_defaultResolver this host url)
              else env r host url req) <$> resolvers this in
  match mapM id promiseArray with
  | Thrown _ => (m, None)
  | Returned resolverResults => scan_results m url resolverResults
  end.

(** ** Choosing the target and rewriting the request *)

(** The effective target of a request: a target, or [false]. *)
Inductive Effective :=
| EFalse
| ETarget (t : Target).

(** The target in effect after the hook: [x !== undefined ? x : target]. *)
Definition effective_target (target : Target) (x : HookResult) : Effective :=
  match x with
  | HUndefined => ETarget target
  | HFalse => EFalse
  | HTarget t => ETarget t
  end.

(** Removal of the route's path from the front of the url. *)
Definition strip_route_path (route : Route) (req : Request) : Request :=
  if (1 <? String.length (path route))%nat
  then set_url (Js.substr (String.length (path route)) (url req))
         (save_url (url req) req)
  else req.

(** The round-robin step: [j = route.rr], the index moves on, and the
    target is [route.urls[j]] ([undefined] when there is none). *)
Definition select_target (route : Route) : option Target * Route :=
  let j := rr route in
  let next :=
    match j with
    | Idx n =>
        match length (urls route) with
        | 0 => NaN
        | S _ as len => Idx ((n + 1) mod len)
        end
    | NaN => NaN
    end in
  (match j with
   | Idx n => urls route !! n
   | NaN => None
   end,
   set_rr next route).

(** The target's pathname put in front of the url. *)
Definition prepend_target_path (target : Target) (req : Request) : Request :=
  if Js.truthy (pathname (target_url target)) then
    let p := Js.or_else (pathname (target_url target)) "" in
    if negb (String.eqb (url req) "") then
      if Js.char_at_is (url req) 0 "?"
      then set_url (p +:+ url req) req
      else set_url (Path.join [p; url req]) req
    else set_url p req
  else req.

(** A change of a route object reaches the place that holds it. *)
Definition store_route (ref : RouteRef) (route : Route)
    (m : Module_) (this : ReverseProxy) : Module_ * ReverseProxy :=
  match ref with
  | InTable h i =>
      (m, set_routing (alter (fun b => <[i := route]> b) h (routing this)) this)
  | InCache k => (set_routeCache (<[k := route]> (routeCache m)) m, this)
  | Foreign => (m, this)
  end.

(** [_getRouteTarget(src, req, res)]. The result is [None] for [{}]
    (no route) and otherwise the route with the effective target; the
    request, the response and the states are those left behind, also when
    an exception is raised. *)
Definition _getRouteTarget (m : Module_) (this : ReverseProxy)
    (env : ResolverEnv) (src : option string) (req : Request)
    (res : option Response)
  : Module_ * ReverseProxy * Request * option Response
    * Outcome (option (Route * Effective)) :=
  let '(m, found) := resolve m this env src (url req) req in
  match found with
  | None => (m, this, req, res, Returned None)
  | Some (ref, route) =>
      let req := strip_route_path route req in
      let '(target, route) := select_target route in
      let '(m, this) := store_route ref route m this in
      match target with
      | None =>
          (m, this, req, res,
           Thrown (TypeError "Cannot read property 'pathname' of undefined"))
      | Some target =>
          let req := prepend_target_path target req in
          let req :=
            if useTargetHostHeader target
            then set_req_host (host (target_url target)) req
            else req in
          match opts route with
          | None =>
              (m, this, req, res,
               Thrown (TypeError "Cannot read property 'onRequest' of undefined"))
          | Some o =>
              match onRequest o with
              | Some hook =>
                  let '(req, res, x) := hook req res target in
                  (m, this, req, res,
                   Returned (Some (route, effective_target target x)))
              | None => (m, this, req, res, Returned (Some (route, ETarget target)))
              end
          end
      end
  end.

(** [_getSource(req)] *)
Definition _getSource (this : ReverseProxy) (req : Request) : option string :=
  if preferForwardedHost this && Js.truthy (header_x_forwarded_host req)
  then before_colon <$> header_x_forwarded_host req
  else if Js.truthy (header_host req)
  then before_colon <$> header_host req
  else None.

(** ** The listeners *)

(** [handleProxyError(err, req, res)]; the log line is left out. *)
Definition handleProxyError (err : Error) (res : Response) : Response :=
  let res :=
    if bool_decide (err_code err = Some "ECONNREFUSED") then
      if has_writeHead res then call (WriteHead 502 None) res else res
    else if negb (headersSent res) then
      if has_writeHead res then call (WriteHead 500 None) res else res
    else res in
  call (EndWith (err_code err)) res.

(** The default [respondNotFound], or the callback that replaced it (whose
    effect on the response is its own). *)
Definition respond (r : Responder) (res : Response) : Response :=
  match r with
  | DefaultNotFound =>
      call (EndWith None) (call (WriteChunk "Not Found") (call (SetStatusCode 404) res))
  | Callback _ => res
  end.

(** [notFound(callback)] *)
Definition notFound (m : Module_) (this : ReverseProxy) (callback : JsValue)
  : Outcome Module_ :=
  match callback with
  | VFunction f => mret (set_respondNotFound (Callback f) m)
  | VNotFunction => Thrown (AssertionError "notFound callback is not a function")
  end.

(** [shouldRedirectToHttps(certs, src, target, proxy)]; an [undefined]
    source is looked up as the key ["undefined"]. *)
Definition shouldRedirectToHttps (this : ReverseProxy) (src : option string)
    (target : Target) : bool :=
  match certs this with
  | Some cs =>
      bool_decide (is_Some (cs !! default "undefined" src))
      && sslRedirect target
      && bool_decide (Some (host (target_url target)) ≠ letsencryptHost this)
  | None => false
  end.

(** [redirectToHttps(req, res, target, ssl, log)]; reading the [Host]
    header of a request that has none raises an exception. *)
Definition redirectToHttps (this : ReverseProxy) (req : Request)
    (res : Response) : Request * Outcome Response :=
  let req := set_url (Js.or_else (_url req) (url req)) req in
  match header_host req with
  | None => (req, Thrown (TypeError "Cannot read property 'split' of undefined"))
  | Some h =>
      let hostname :=
        before_colon h
        +:+ (if Js.truthy (ssl_redirect_port this)
             then ":" +:+ Js.or_else (ssl_redirect_port this) ""
             else "") in
      let location := "https://" +:+ Path.join [hostname; url req] in
      (req, Returned (call (EndWith None) (call (WriteHead 302 (Some location)) res)))
  end.

(** What a listener did with a request, up to the hand-over to the
    forwarder; the completion of the forwarding and the response hook are
    not part of the model. *)
Inductive Action :=
| NotFound (responder : Responder)
| Skipped
| RedirectedToHttps (target : Target)
| Forwarded (proxy : option ProxyHandle) (target : Target)
    (globalOpts : HttpProxyOpts) (routeOpts : option HttpProxyOpts)
| ForwardedWebSocket (target : Target)
| ErrorHandlerCalled (handler : nat) (e : Error)
| DefaultErrorHandled (e : Error)
| Unhandled (e : Error).

(** The [catch] of a listener: the route's [onError] if a route has been
    recorded, else the global handler, else the default one. *)
Definition catch (this : ReverseProxy) (_route : option Route) (e : Error)
    (res : Response) : Response * Action :=
  match (_route ≫= opts) ≫= onError with
  | Some h => (res, ErrorHandlerCalled h e)
  | None =>
      match opts_errorHandler this with
      | Some h => (res, ErrorHandlerCalled h e)
      | None => (handleProxyError e res, DefaultErrorHandled e)
      end
  end.

(** What the plain listener does with a route and a target that is not
    [false]: the redirect to HTTPS, or the hand-over to the forwarder. *)
Definition redirect_or_forward (this : ReverseProxy) (src : option string)
    (route : Route) (target : Target) (req : Request) (res : Response)
  : Request * Response * Action :=
  if shouldRedirectToHttps this src target then
    match redirectToHttps this req res with
    | (req, Returned res) => (req, res, RedirectedToHttps target)
    | (req, Thrown e) =>
        let '(res, a) := catch this (Some route) e res in (req, res, a)
    end
  else
    (req, res,
     Forwarded (proxy route) target (opts_httpProxy this)
       (opts route ≫= httpProxy)).

(** The request callback of [_createHttpServer]. *)
Definition httpServer_request (m : Module_) (this : ReverseProxy)
    (env : ResolverEnv) (req : Request) (res : Response)
  : Module_ * ReverseProxy * Request * Response * Action :=
  let src := _getSource this req in
  let '(m, this, req, res', out) := _getRouteTarget m this env src req (Some res) in
  let res := default res res' in
  match out with
  | Thrown e =>
      let '(res, a) := catch this None e res in (m, this, req, res, a)
  | Returned None =>
      (m, this, req, respond (respondNotFound m) res, NotFound (respondNotFound m))
  | Returned (Some (route, EFalse)) => (m, this, req, res, Skipped)
  | Returned (Some (route, ETarget target)) =>
      let '(req, res, a) := redirect_or_forward this src route target req res in
      (m, this, req, res, a)
  end.

(** The request callback of [_createHttpsServer]. *)
Definition httpsServer_request (m : Module_) (this : ReverseProxy)
    (env : ResolverEnv) (req : Request) (res : Response)
  : Module_ * ReverseProxy * Request * Response * Action :=
  let src := _getSource this req in
  let '(m, this, req, res', out) := _getRouteTarget m this env src req (Some res) in
  let res := default res res' in
  match out with
  | Thrown e =>
      let '(res, a) := catch this None e res in (m, this, req, res, a)
  | Returned None =>
      (m, this, req, respond (respondNotFound m) res, NotFound (respondNotFound m))
  | Returned (Some (route, EFalse)) => (m, this, req, res, Skipped)
  | Returned (Some (route, ETarget target)) =>
      (m, this, req, res,
       Forwarded (proxy route) target (opts_httpProxy this)
         (opts route ≫= httpProxy))
  end.

(** [_websocketsUpgrade(req, socket, head)]: the hook gets no response,
    and a missing or [false] target is answered on the socket. *)
Definition _websocketsUpgrade (m : Module_) (this : ReverseProxy)
    (env : ResolverEnv) (req : Request) (socket : Response)
  : Module_ * ReverseProxy * Request * Response * Action :=
  let src := _getSource this req in
  let '(m, this, req, _, out) := _getRouteTarget m this env src req None in
  match out with
  | Thrown e => (m, this, req, socket, Unhandled e)
  | Returned (Some (_, ETarget target)) =>
      (m, this, req, socket, ForwardedWebSocket target)
  | Returned _ =>
      (m, this, req, respond (respondNotFound m) socket,
       NotFound (respondNotFound m))
  end.

End Requests.


(** * Predicates of the statements *)


(** The resolvers of priority [p], in the order of the list. *)
Definition ties (prio : gmap nat Z) (p : Z) (l : list nat) : list nat :=
  filter (fun r => prio !! r = Some p) l.

(** Descending priority: whatever comes later in the list has a priority
    that is at most that of what comes before. *)
Definition descending_priority (prio : gmap nat Z) (l : list nat) : Prop :=
  StronglySorted (fun a b => priority_le prio b a = true) l.

(** A bucket in the order [register] keeps: longer paths first. *)
Definition sorted_bucket (bucket : list Route) : Prop :=
  Sorted (fun r1 r2 => longer_path_first r1 r2 = true) bucket.

(** The shape [register] and [unregister] keep the routing table in: every
    bucket sorted, and no route without a target. *)
Definition table_invariant (table : gmap string (list Route)) : Prop :=
  forall hostname bucket,
    table !! hostname = Some bucket ->
    sorted_bucket bucket /\ Forall (fun r => urls r <> []) bucket.

(** The request as [_getRouteTarget] has rewritten it when it turns to the
    hook: the route's path stripped, the target's pathname put in front, and
    the [host] set if the target asks for it. *)
Definition request_for_hook (route : Route) (target : Target) (req : Request)
  : Request :=
  let req := prepend_target_path target (strip_route_path route req) in
  if useTargetHostHeader target
  then set_req_host (host (target_url target)) req
  else req.

(** The call of the [onRequest] hook, if the route has one. *)
Definition after_hook (o : RouteOpts) (req : Request) (res : option Response)
    (target : Target) : Request * option Response * Effective :=
  match onRequest o with
  | Some hook =>
      let '(req, res, x) := hook req res target in
      (req, res, effective_target target x)
  | None => (req, res, ETarget target)
  end.

(** The url after rewriting, in the words of the specification: the route's
    path is stripped if it is longer than one character; then a non-empty
    target pathname is joined to what remains with [path.posix.join], or
    put directly in front of it when it begins with a question mark. *)
Definition url_as_specified (route_path : string)
    (target_pathname : option string) (url : string) : string :=
  let rest :=
    if (1 <? String.length route_path)%nat
    then Js.substr (String.length route_path) url
    else url in
  if Js.truthy target_pathname then
    if Js.char_at_is rest 0 "?"
    then Js.or_else target_pathname "" +:+ rest
    else Path.join [Js.or_else target_pathname ""; rest]
  else rest.

(** The same with the case the code adds: when nothing remains of the url,
    the target pathname is taken as it is. *)
Definition url_as_amended (route_path : string)
    (target_pathname : option string) (url : string) : string :=
  let rest :=
    if (1 <? String.length route_path)%nat
    then Js.substr (String.length route_path) url
    else url in
  if Js.truthy target_pathname then
    if String.eqb rest "" then Js.or_else target_pathname ""
    else if Js.char_at_is rest 0 "?"
    then Js.or_else target_pathname "" +:+ rest
    else Path.join [Js.or_else target_pathname ""; rest]
  else rest.

(** The round-robin index of a route points into its targets. *)
Definition rr_in_range (route : Route) : Prop :=
  match rr route with
  | Idx n => n < length (urls route)
  | NaN => False
  end.


(** * Example inputs

    Closed instances used to run the definitions. Every URL in them is given
    as a parsed object and no resolver answers with a string or a
    descriptor, so the library functions below are never reached. *)

Definition literal_urls : Platform :=
  {| parseUrl := fun s => mkUrl "http:" s None s (Some "/") s;
     isHttpOrHttpsUri := fun _ => true;
     hash := fun _ => "" |}.

Definition example_src : Url :=
  mkUrl "http:" "example.com" None "example.com" (Some "/")
    "http://example.com/".

Definition example_src_x : Url :=
  mkUrl "http:" "example.com" None "example.com" (Some "/x")
    "http://example.com/x".

Definition target_a : Url :=
  mkUrl "http:" "10.0.0.1" (Some "8080") "10.0.0.1:8080" (Some "/")
    "http://10.0.0.1:8080/".

Definition target_b : Url :=
  mkUrl "http:" "10.0.0.2" (Some "8080") "10.0.0.2:8080" (Some "/")
    "http://10.0.0.2:8080/".

Definition target_double_slash : Url :=
  mkUrl "http:" "10.0.0.1" (Some "8080") "10.0.0.1:8080" (Some "/foo//bar")
    "http://10.0.0.1:8080/foo//bar".

Definition fresh_module : Module_ :=
  {| respondNotFound := DefaultNotFound; routeCache := ∅;
     priority := {[ defaultResolverId := 0%Z ]} |}.

(** A new instance listening on plain HTTP only. *)
Definition fresh_proxy : ReverseProxy :=
  {| cluster_master := false; preferForwardedHost := false;
     opts_httpProxy := []; opts_errorHandler := None;
     letsencrypt_path := None; renewWithin := None; letsencryptHost := None;
     ssl_redirect_port := None;
     routing := ∅; certs := None; httpsServers := 0; _proxies := ∅;
     resolvers := [defaultResolverId]; certificate_updates := [] |}.

(** A new instance with one HTTPS listener on port 443 as well. *)
Definition fresh_ssl_proxy : ReverseProxy :=
  {| cluster_master := false; preferForwardedHost := false;
     opts_httpProxy := []; opts_errorHandler := None;
     letsencrypt_path := None; renewWithin := None; letsencryptHost := None;
     ssl_redirect_port := Some "443";
     routing := ∅; certs := Some ∅; httpsServers := 1; _proxies := ∅;
     resolvers := [defaultResolverId]; certificate_updates := [] |}.

Definition no_resolvers : ResolverEnv := fun _ _ _ _ => Returned RUndefined.

Definition get (u host : string) : Request :=
  {| url := u; _url := None; req_host := None; header_host := Some host;
     header_x_forwarded_host := None |}.

Definition new_response : Response :=
  {| has_writeHead := true; headersSent := false; calls := [] |}.

Definition new_socket : Response :=
  {| has_writeHead := false; headersSent := false; calls := [] |}.

Definition ECONNREFUSED : Error :=
  MkError (Some "ECONNREFUSED") "connect ECONNREFUSED".

Definition one_route_proxy : ReverseProxy :=
  register_route fresh_proxy example_src (mkTarget target_a false false) None.

(** [example.com/x] routed to a target whose pathname has a double slash. *)
Definition double_slash_proxy : ReverseProxy :=
  register_route fresh_proxy example_src_x
    (mkTarget target_double_slash false false) None.



(** Options with a response hook only. *)
Definition with_onResponse : RouteOpts :=
  {| ssl := None; opt_useTargetHostHeader := None; changeOrigin := None;
     onRequest := None; onResponse := Some 7; onError := None;
     httpProxy := None |}.



(** * Further predicates of the statements *)

(** No two routes of a bucket have the same path. *)
Definition distinct_paths (bucket : list Route) : Prop :=
  NoDup (path <$> bucket).

(** The full shape of the routing table: buckets sorted, no route without a
    target, paths distinct within a bucket. *)
Definition table_shape (table : gmap string (list Route)) : Prop :=
  table_invariant table
  /\ forall hostname bucket,
       table !! hostname = Some bucket -> distinct_paths bucket.

(** A route matches a url for the table resolver. *)
Definition route_matches (url : string) (route : Route) : bool :=
  String.eqb (path route) "/" || startsWith url (path route).


(** * Further example inputs *)

(** [{ ssl: { key: 'k.pem', cert: 'c.pem' } }] *)
Definition ssl_keys : RouteOpts :=
  {| ssl := Some {| key := Some "k.pem"; cert := Some "c.pem"; ca := None;
                    letsencrypt := None; redirect := None |};
     opt_useTargetHostHeader := None; changeOrigin := None;
     onRequest := None; onResponse := None; onError := None;
     httpProxy := None |}.

(** [example.com/] registered with a certificate of its own, and
    [example.com/x] registered without options. *)
Definition secured_proxy : ReverseProxy :=
  match register (H := literal_urls) fresh_ssl_proxy (UrlObject example_src)
          (UrlObject target_a) (Some ssl_keys) with
  | Returned this =>
      register_route this example_src_x (mkTarget target_b false false) None
  | Thrown _ => fresh_ssl_proxy
  end.

(** [{ ssl: { key: 'other.pem', cert: 'o.pem' } }] *)
Definition ssl_other_keys : RouteOpts :=
  {| ssl := Some {| key := Some "other.pem"; cert := Some "o.pem"; ca := None;
                    letsencrypt := None; redirect := None |};
     opt_useTargetHostHeader := None; changeOrigin := None;
     onRequest := None; onResponse := None; onError := None;
     httpProxy := None |}.



(** A resolver that answers every request with the string [10.0.0.1]. *)
Definition string_resolver : ResolverEnv :=
  fun _ _ _ _ => Returned (RString "10.0.0.1").

(** * Successive requests on one route *)

(** The targets that [n] successive requests get from one route object:
    the round-robin step of [_getRouteTarget], [n] times over. *)
Fixpoint select_targets (n : nat) (route : Route)
  : list (option Target) * Route :=
  match n with
  | 0 => ([], route)
  | S n' =>
      let '(t, route) := select_target route in
      let '(ts, route) := select_targets n' route in
      (t :: ts, route)
  end.

(** A routing table without its round-robin indices. *)
Definition forget_rr (table : gmap string (list Route))
  : gmap string (list Route) :=
  fmap (M := gmap string) (fun bucket : list Route => set_rr (Idx 0) <$> bucket)
    table.

(** * The route cache *)

(** No route of the cache has options. *)
Definition cache_without_opts (m : Module_) : Prop :=
  forall cacheKey route, routeCache m !! cacheKey = Some route ->
                         opts route = None.

(** * The end of a forwarding *)

(** What [http-proxy] reports of a request handed to it: the events the
    listeners of [_setupProxyEvents] wait for. *)
Inductive ProxyEvent :=
| ProxyEnd
| ProxyError (err : Error)
| ProxyEconnreset (err : Error).

(** [_createForwardDefer(route, req)]: [true] when [req[FORWARDING]] is set
    and a promise returned, [false] when nothing is returned. *)
Definition _createForwardDefer (this : ReverseProxy) (route : Route)
  : Outcome bool :=
  match opts route with
  | None => Thrown (TypeError "Cannot read property 'onResponse' of undefined")
  | Some o =>
      mret (bool_decide (is_Some (onResponse o))
            || bool_decide (is_Some (onError o))
            || bool_decide (is_Some (opts_errorHandler this)))
  end.

(** What is called once a request has been handed over. *)
Inductive Completion :=
| ResponseHookCalled (hook : nat)
| Caught (a : Action).

(** The second [then] of a listener: the response hook of the route. *)
Definition then_onResponse (route : Route) : list Completion :=
  match (opts route) ≫= onResponse with
  | Some hook => [ResponseHookCalled hook]
  | None => []
  end.

(** The rest of a listener after [route.proxy.web], up to the event that
    ends the forwarding. Without a promise the chain runs through its
    second [then] at once and the event finds no [req[FORWARDING]]; with
    one, the event settles it, and the chain goes on from there. On a
    route without options the [catch] of the listener fails as
    [_createForwardDefer] did, and nothing handles that. *)
Definition forward_completion (this : ReverseProxy) (route : Route)
    (ev : ProxyEvent) (res : Response) : Response * list Completion :=
  match _createForwardDefer this route with
  | Thrown _ =>
      (res,
       [Caught (Unhandled
                  (TypeError "Cannot read property 'onError' of undefined"))])
  | Returned false =>
      let called := then_onResponse route in
      match ev with
      | ProxyEnd => (res, called)
      | ProxyError err | ProxyEconnreset err =>
          (handleProxyError err res, called ++ [Caught (DefaultErrorHandled err)])
      end
  | Returned true =>
      match ev with
      | ProxyEnd => (res, then_onResponse route)
      | ProxyError err | ProxyEconnreset err =>
          let '(res, a) := catch this (Some route) err res in (res, [Caught a])
      end
  end.

(** * Certificate bundles *)

(** [s.split('\n')] *)
Fixpoint split_lines (s : string) : list string :=
  match s with
  | EmptyString => [EmptyString]
  | String c s' =>
      if Ascii.eqb c "010" then EmptyString :: split_lines s'
      else match split_lines s' with
           | line :: rest => String c line :: rest
           | [] => [String c EmptyString]
           end
  end.

(** [s.match(re)] for a pattern without special characters: the pattern
    occurs somewhere in [s]. *)
Fixpoint contains (pattern s : string) : bool :=
  String.prefix pattern s
  || match s with
     | EmptyString => false
     | String _ s' => contains pattern s'
     end.

Definition END_CERTIFICATE : string := "-END CERTIFICATE-".

Definition newline : string := String "010" EmptyString.

Section Certificates.

(** [String.prototype.trim] *)
Variable trim : string -> string.

(** The loop of [unbundleCert] over the lines that are left, with [cert]
    and [ca] as they stand. *)
Fixpoint unbundle_loop (chain cert ca : list string) : list string :=
  match chain with
  | [] => ca
  | l :: chain =>
      let line := trim l in
      if negb (negb (String.length line =? 0)%nat) then
        unbundle_loop chain cert ca
      else
        let cert := cert ++ [line] in
        if contains END_CERTIFICATE line
        then unbundle_loop chain [] (ca ++ [String.concat newline cert])
        else unbundle_loop chain cert ca
  end.

(** [unbundleCert(bundle)] *)
Definition unbundleCert (bundle : string) : list string :=
  unbundle_loop (split_lines (trim bundle)) [] [].

End Certificates.

(** [trim] on strings of ASCII characters: tab, line feed, vertical tab,
    form feed, carriage return and space go from both ends. *)
Definition is_space (c : ascii) : bool :=
  let n := nat_of_ascii c in
  ((9 <=? n)%nat && (n <=? 13)%nat) || (n =? 32)%nat.

Fixpoint trim_start (s : string) : string :=
  match s with
  | EmptyString => EmptyString
  | String c s' => if is_space c then trim_start s' else s
  end.

Fixpoint trim_end (s : string) : string :=
  match s with
  | EmptyString => EmptyString
  | String c s' =>
      match trim_end s' with
      | EmptyString => if is_space c then EmptyString else String c EmptyString
      | t => String c t
      end
  end.

Definition trim_ascii (s : string) : string := trim_end (trim_start s).

(** A bundle of two certificates, with a blank line between them and a
    line after the last. *)
Definition two_certificates : string :=
  String.concat newline
    ["-----BEGIN CERTIFICATE-----"; "  QUJD  "; "-----END CERTIFICATE-----";
     ""; "-----BEGIN CERTIFICATE-----"; "REVG";
     "-----END CERTIFICATE-----"; "trailer"; ""].

(** * The outgoing request *)

(** The [proxyReq] listener that [_createProxy] puts on every forwarder,
    on the headers of the outgoing request. *)
Definition on_proxyReq (p : gmap string string) (req : Request)
  : gmap string string :=
  match req_host req with
  | Some h => <["host" := h]> p
  | None => p
  end.
(** * Properties *)

(** Unfolds the monad of [Outcome] so that a case analysis can proceed. *)
Ltac outcome :=
  cbv [mret outcome_ret mbind outcome_bind assert] in *; cbn in *.

Ltac outcome_unfold :=
  cbv [mret outcome_ret mbind outcome_bind assert] in *.


(** ** The prefix test *)

Lemma slice0_prefix (p u : string) :
  Js.slice0 (String.length p) u = p <-> String.prefix p u = true.
Proof.
  unfold Js.slice0. revert u.
  induction p as [|c p IH]; intros [|d u]; simpl; try easy.
  destruct (ascii_dec c d) as [->|Hne].
  - rewrite <- IH. split; [now intros [= ->] | now intros ->].
  - split; [intros [= E _]; congruence | discriminate].
Qed.

Lemma prefix_same_length (p u : string) :
  String.prefix p u = true -> String.length u = String.length p -> u = p.
Proof.
  revert u. induction p as [|c p IH]; intros [|d u]; simpl; try easy.
  destruct (ascii_dec c d) as [->|]; [|discriminate].
  intros Hp [= Hl]. f_equal. now apply IH.
Qed.

Lemma char_at_is_spec (s : string) (i : nat) (c : ascii) :
  Js.char_at_is s i c = true <-> String.get i s = Some c.
Proof.
  unfold Js.char_at_is. destruct (String.get i s) as [d|]; [|easy].
  rewrite Ascii.eqb_eq. split; [now intros -> | now intros [= ->]].
Qed.

(** C1: the prefix test holds exactly when the url starts with the route
    path and then either ends there or continues with a slash or a question
    mark; [/foobar] does not match the prefix [/foo], nor [/foo] the prefix
    [/foobar]. *)
Theorem startsWith_spec :
  (forall u p : string,
      startsWith u p = true <->
      String.prefix p u = true /\
      (u = p \/ String.get (String.length p) u = Some "/"%char
             \/ String.get (String.length p) u = Some "?"%char))
  /\ startsWith "/foobar" "/foo" = false
  /\ startsWith "/foo" "/foobar" = false.
Proof.
  split; [|split; reflexivity].
  intros u p. unfold startsWith.
  rewrite andb_true_iff, !orb_true_iff, String.eqb_eq, Nat.eqb_eq.
  rewrite !char_at_is_spec, slice0_prefix.
  split; intros [Hp Hc]; split; try assumption.
  - destruct Hc as [[Hl|Hs]|Hq]; auto using prefix_same_length.
  - destruct Hc as [->|[Hs|Hq]]; auto.
Qed.

(** ** The stable sort and the de-duplication *)

Section Sorting.
Context {A : Type} (le : A -> A -> bool).

Let R : relation A := fun a b => le a b = true.

Hypothesis le_total : forall a b, le a b = true \/ le b a = true.
Hypothesis le_trans : forall a b c, le a b = true -> le b c = true -> le a c = true.

Lemma sortBy_cons (x : A) (l : list A) :
  sortBy le (x :: l) = insert_by le x (sortBy le l).
Proof. reflexivity. Qed.

Lemma insert_by_Permutation (x : A) (l : list A) : insert_by le x l ≡ₚ x :: l.
Proof.
  induction l as [|y l IH]; cbn; [reflexivity|].
  destruct (le x y); [reflexivity|]. rewrite IH. apply Permutation_swap.
Qed.

Lemma sortBy_Permutation (l : list A) : sortBy le l ≡ₚ l.
Proof.
  induction l as [|x l IH]; [reflexivity|].
  rewrite sortBy_cons, insert_by_Permutation. now rewrite IH.
Qed.

Lemma insert_by_StronglySorted (x : A) (l : list A) :
  StronglySorted R l -> StronglySorted R (insert_by le x l).
Proof.
  induction 1 as [|y l Hs IH Hy]; cbn; [repeat constructor|].
  destruct (le x y) eqn:E.
  - constructor; [now constructor|]. constructor; [exact E|].
    eapply Forall_impl; [exact Hy|]. intros z Hz. now apply le_trans with y.
  - constructor; [exact IH|]. rewrite insert_by_Permutation.
    constructor; [|exact Hy].
    destruct (le_total x y) as [H|H]; [congruence|exact H].
Qed.

Lemma sortBy_StronglySorted (l : list A) : StronglySorted R (sortBy le l).
Proof.
  induction l as [|x l IH]; [constructor|].
  rewrite sortBy_cons. now apply insert_by_StronglySorted.
Qed.


(** Stability: the elements of one key class keep their order. *)
Lemma filter_insert_by (Q : A -> Prop) `{!forall a, Decision (Q a)}
    (x : A) (l : list A) :
  (forall z, Q x -> Q z -> le x z = true) ->
  filter Q (insert_by le x l) = filter Q (x :: l).
Proof.
  intros HQ. induction l as [|y l IH]; cbn; [reflexivity|].
  destruct (le x y) eqn:E; [reflexivity|].
  rewrite (filter_cons _ y), IH, !filter_cons.
  destruct (decide (Q y)) as [Hy|Hy]; [|reflexivity].
  destruct (decide (Q x)) as [Hx|Hx]; [|reflexivity].
  rewrite HQ in E by assumption. discriminate.
Qed.

Lemma filter_sortBy (Q : A -> Prop) `{!forall a, Decision (Q a)} (l : list A) :
  (forall x z, Q x -> Q z -> le x z = true) ->
  filter Q (sortBy le l) = filter Q l.
Proof.
  intros HQ. induction l as [|x l IH]; [reflexivity|].
  rewrite sortBy_cons, filter_insert_by by auto.
  rewrite !filter_cons, IH. reflexivity.
Qed.

(** Taking out the first element that satisfies [P]. *)
Lemma insert_by_find_delete_new (P : A -> Prop) `{!forall a, Decision (P a)}
    (x : A) (l : list A) :
  P x -> Forall (fun y => ~ P y) l ->
  exists i, list_find P (insert_by le x l) = Some (i, x)
            /\ delete i (insert_by le x l) = l.
Proof.
  intros Hx. induction 1 as [|y l Hy Hl IH]; cbn.
  - exists 0. now rewrite decide_True.
  - destruct (le x y).
    + exists 0. cbn. now rewrite decide_True.
    + destruct IH as (i & Hf & Hd). exists (S i). cbn.
      rewrite decide_False, Hf by assumption. cbn.
      split; [reflexivity|]. f_equal. exact Hd.
Qed.



End Sorting.

Section Uniq.
Context {A : Type} `{EqDecision A}.

Lemma elem_of_uniq_from (seen l : list A) (x : A) :
  x ∈ uniq_from seen l <-> x ∈ l /\ x ∉ seen.
Proof.
  revert seen. induction l as [|y l IH]; intros seen; cbn.
  - rewrite elem_of_nil. tauto.
  - case_bool_decide as Hy.
    + rewrite IH, elem_of_cons. split; [tauto|].
      intros [[->|Hx] Hn]; [contradiction|tauto].
    + rewrite !elem_of_cons, IH, elem_of_cons.
      destruct (decide (x = y)) as [->|Hne]; [tauto|]. tauto.
Qed.

Lemma NoDup_uniq_from (seen l : list A) : NoDup (uniq_from seen l).
Proof.
  revert seen. induction l as [|y l IH]; intros seen; cbn; [constructor|].
  case_bool_decide; [apply IH|].
  constructor; [|apply IH].
  rewrite elem_of_uniq_from, elem_of_cons. tauto.
Qed.

Lemma elem_of_uniq (l : list A) (x : A) : x ∈ uniq l <-> x ∈ l.
Proof. unfold uniq. rewrite elem_of_uniq_from, elem_of_nil. tauto. Qed.

Lemma NoDup_uniq (l : list A) : NoDup (uniq l).
Proof. apply NoDup_uniq_from. Qed.

End Uniq.

(** ** The default error handler *)

(** C7, as stated, fails on a raw socket: on the upgrade path the handler is
    given the socket, which has no [writeHead], and a refused connection
    writes no status 502 on it. *)
Lemma handleProxyError_socket_no_502 :
  err_code ECONNREFUSED = Some "ECONNREFUSED"
  /\ calls (handleProxyError ECONNREFUSED new_socket) = [EndWith (Some "ECONNREFUSED")]
  /\ WriteHead 502 None ∉ calls (handleProxyError ECONNREFUSED new_socket).
Proof.
  assert (calls (handleProxyError ECONNREFUSED new_socket)
          = [EndWith (Some "ECONNREFUSED")]) as E by reflexivity.
  rewrite E, list_elem_of_singleton. repeat split; discriminate.
Qed.

(** C7, amended: on a response that has [writeHead], the handler writes
    status 502 for [ECONNREFUSED], else status 500 if the headers have not
    been sent, else no status; on an object without [writeHead] it writes no
    status; in every case it then ends the response with the error code. *)
Theorem handleProxyError_spec (err : Error) (res : Response) :
  (has_writeHead res = true -> err_code err = Some "ECONNREFUSED" ->
   calls (handleProxyError err res)
   = calls res ++ [WriteHead 502 None; EndWith (err_code err)])
  /\ (has_writeHead res = true -> err_code err <> Some "ECONNREFUSED" ->
      headersSent res = false ->
      calls (handleProxyError err res)
      = calls res ++ [WriteHead 500 None; EndWith (err_code err)])
  /\ (err_code err <> Some "ECONNREFUSED" -> headersSent res = true ->
      calls (handleProxyError err res) = calls res ++ [EndWith (err_code err)])
  /\ (has_writeHead res = false ->
      calls (handleProxyError err res) = calls res ++ [EndWith (err_code err)]).
Proof.
  unfold handleProxyError.
  repeat split; intros; repeat case_bool_decide; try congruence;
    repeat match goal with
           | H : _ = true |- _ => rewrite H
           | H : _ = false |- _ => rewrite H
           end; cbn; rewrite <- ?app_assoc; try reflexivity;
    destruct (headersSent res); reflexivity.
Qed.

(** ** The not-found responder *)

Section NotFound.
Context `{Platform}.

Lemma buildRoute_respondNotFound (m m' : Module_) (x : ResolverResult)
    (r : option (RouteRef * Route)) :
  buildRoute m x = Returned (m', r) -> respondNotFound m' = respondNotFound m.
Proof.
  destruct x as [|b|s|h i r0|r0|d]; cbn; outcome;
    try (intros [= <- _]; reflexivity).
  - destruct (routeCache m !! s); [intros [= <- _]; reflexivity|].
    destruct (isHttpOrHttpsUri _); [|discriminate].
    intros [= <- _]. reflexivity.
  - destruct (routeCache m !! hash d); [intros [= <- _]; reflexivity|].
    destruct (d_url d); [|intros [= <- _]; reflexivity].
    destruct (mapM _ _); [|discriminate].
    intros [= <- _]. reflexivity.
Qed.

Lemma scan_results_respondNotFound (m : Module_) (url : string)
    (results : list ResolverResult) :
  respondNotFound (scan_results m url results).1 = respondNotFound m.
Proof.
  revert m. induction results as [|x rest IH]; intros m; cbn; [reflexivity|].
  destruct (answer_truthy x); [|apply IH].
  destruct (buildRoute m x) as [[m' [[ref route]|]]|e] eqn:E; cbn;
    [|rewrite IH; eauto using buildRoute_respondNotFound|reflexivity].
  destruct (_ || _); cbn; [|rewrite IH]; eauto using buildRoute_respondNotFound.
Qed.

Lemma resolve_respondNotFound (m : Module_) (this : ReverseProxy)
    (env : ResolverEnv) (host : option string) (url : string) (req : Request) :
  respondNotFound (resolve m this env host url req).1 = respondNotFound m.
Proof.
  unfold resolve. destruct (mapM _ _); [apply scan_results_respondNotFound|reflexivity].
Qed.

Lemma store_route_respondNotFound (ref : RouteRef) (route : Route)
    (m : Module_) (this : ReverseProxy) :
  respondNotFound (store_route ref route m this).1 = respondNotFound m.
Proof. destruct ref; reflexivity. Qed.

(** [_getRouteTarget] leaves the module's responder as it is. *)
Lemma getRouteTarget_respondNotFound (m : Module_) (this : ReverseProxy)
    (env : ResolverEnv) (src : option string) (req : Request)
    (res : option Response) :
  respondNotFound (_getRouteTarget m this env src req res).1.1.1.1
  = respondNotFound m.
Proof.
  unfold _getRouteTarget.
  pose proof (resolve_respondNotFound m this env src (url req) req) as Hr.
  destruct (resolve m this env src (url req) req) as [m1 [[ref route]|]];
    cbn in Hr; [|exact Hr].
  destruct (select_target route) as [target route'].
  pose proof (store_route_respondNotFound ref route' m1 this) as Hs.
  destruct (store_route ref route' m1 this) as [m2 this2]; cbn in Hs.
  rewrite Hr in Hs.
  destruct target as [target|]; [|exact Hs].
  destruct (opts route') as [o|]; [|exact Hs].
  destruct (onRequest o) as [hook|]; [|exact Hs].
  destruct (hook _ _ _) as [[req' res'] x]. exact Hs.
Qed.

(** Without a route, [_getRouteTarget] answers [{}]. *)
Lemma getRouteTarget_no_route (m : Module_) (this : ReverseProxy)
    (env : ResolverEnv) (src : option string) (req : Request)
    (res : option Response) :
  (resolve m this env src (url req) req).2 = None ->
  _getRouteTarget m this env src req res
  = ((resolve m this env src (url req) req).1, this, req, res, Returned None).
Proof.
  unfold _getRouteTarget.
  destruct (resolve m this env src (url req) req) as [m1 [[ref route]|]];
    cbn; [discriminate|reflexivity].
Qed.

Lemma httpServer_request_NotFound (m : Module_) (this : ReverseProxy)
    (env : ResolverEnv) (req : Request) (res : Response) (r : Responder) :
  (httpServer_request m this env req res).2 = NotFound r ->
  r = respondNotFound m.
Proof.
  unfold httpServer_request.
  pose proof (getRouteTarget_respondNotFound m this env (_getSource this req)
                req (Some res)) as Hm.
  destruct (_getRouteTarget _ _ _ _ _ _) as [[[[m1 this1] req1] res1] out].
  cbn in Hm. rewrite <- Hm.
  destruct out as [[[route [|target]]|]|e]; cbn.
  - discriminate.
  - unfold redirect_or_forward, catch.
    destruct (shouldRedirectToHttps _ _ _); [|discriminate].
    destruct (redirectToHttps _ _ _) as [req2 [res2|e]]; [discriminate|].
    destruct (_ ≫= onError); [discriminate|].
    destruct (opts_errorHandler _); discriminate.
  - now intros [= <-].
  - unfold catch. cbn. destruct (opts_errorHandler _); discriminate.
Qed.

Lemma httpsServer_request_NotFound (m : Module_) (this : ReverseProxy)
    (env : ResolverEnv) (req : Request) (res : Response) (r : Responder) :
  (httpsServer_request m this env req res).2 = NotFound r ->
  r = respondNotFound m.
Proof.
  unfold httpsServer_request.
  pose proof (getRouteTarget_respondNotFound m this env (_getSource this req)
                req (Some res)) as Hm.
  destruct (_getRouteTarget _ _ _ _ _ _) as [[[[m1 this1] req1] res1] out].
  cbn in Hm. rewrite <- Hm.
  destruct out as [[[route [|target]]|]|e]; cbn; try discriminate.
  - now intros [= <-].
  - unfold catch. cbn. destruct (opts_errorHandler _); discriminate.
Qed.

Lemma websocketsUpgrade_NotFound (m : Module_) (this : ReverseProxy)
    (env : ResolverEnv) (req : Request) (socket : Response) (r : Responder) :
  (_websocketsUpgrade m this env req socket).2 = NotFound r ->
  r = respondNotFound m.
Proof.
  unfold _websocketsUpgrade.
  pose proof (getRouteTarget_respondNotFound m this env (_getSource this req)
                req None) as Hm.
  destruct (_getRouteTarget _ _ _ _ _ _) as [[[[m1 this1] req1] res1] out].
  cbn in Hm. rewrite <- Hm.
  destruct out as [[[route [|target]]|]|e]; cbn; try discriminate;
    now intros [= <-].
Qed.

(** C10: [notFound] with a function sets the responder of the module, not
    of the instance it is called on: afterwards every instance answers a
    request without a route through the callback, on the HTTP listener, on
    the HTTPS listener and on the upgrade path alike; with anything that is
    not a function it throws. *)
Theorem notFound_is_shared_by_all_instances (m : Module_)
    (this : ReverseProxy) (callback : JsValue) :
  match callback with
  | VFunction f =>
      exists m', notFound m this callback = Returned m'
        /\ respondNotFound m' = Callback f
        /\ forall (other : ReverseProxy) (env : ResolverEnv) (req : Request)
                  (res : Response),
             (forall r,
                 ((httpServer_request m' other env req res).2 = NotFound r
                  \/ (httpsServer_request m' other env req res).2 = NotFound r
                  \/ (_websocketsUpgrade m' other env req res).2 = NotFound r) ->
                 r = Callback f)
             /\ ((resolve m' other env (_getSource other req) (url req) req).2
                 = None ->
                 (httpServer_request m' other env req res).2
                 = NotFound (Callback f)
                 /\ (httpsServer_request m' other env req res).2
                    = NotFound (Callback f)
                 /\ (_websocketsUpgrade m' other env req res).2
                    = NotFound (Callback f))
  | VNotFunction => exists e, notFound m this callback = Thrown e
  end.
Proof.
  destruct callback as [f|]; [|eexists; reflexivity].
  exists (set_respondNotFound (Callback f) m).
  split; [reflexivity|]. split; [reflexivity|].
  intros other env req res. split.
  - intros r [Hr|[Hr|Hr]].
    + now apply httpServer_request_NotFound in Hr.
    + now apply httpsServer_request_NotFound in Hr.
    + now apply websocketsUpgrade_NotFound in Hr.
  - intros Hnone.
    pose proof (resolve_respondNotFound (set_respondNotFound (Callback f) m)
                  other env (_getSource other req) (url req) req) as Hm.
    unfold httpServer_request, httpsServer_request, _websocketsUpgrade.
    rewrite !getRouteTarget_no_route by exact Hnone.
    cbn in *. rewrite Hm. auto.
Qed.

End NotFound.

(** ** The prefix check on resolved routes *)

Section ResolvedRoutes.
Context `{Platform}.




End ResolvedRoutes.


(** ** The resolver pipeline *)

Lemma priority_le_total (prio : gmap nat Z) (a b : nat) :
  priority_le prio a b = true \/ priority_le prio b a = true.
Proof.
  unfold priority_le. destruct (prio !! a), (prio !! b); auto.
  rewrite !Z.leb_le. lia.
Qed.

Lemma priority_le_trans (prio : gmap nat Z) (a b c : nat) :
  priority_le prio a b = true -> priority_le prio b c = true ->
  priority_le prio a c = true.
Proof.
  unfold priority_le. destruct (prio !! a), (prio !! b), (prio !! c);
    try discriminate; auto.
  rewrite !Z.leb_le. lia.
Qed.

(** Resolvers of one priority compare as equal. *)
Lemma priority_le_tie (prio : gmap nat Z) (p : Z) (a b : nat) :
  prio !! a = Some p -> prio !! b = Some p -> priority_le prio a b = true.
Proof. unfold priority_le. intros -> ->. apply Z.leb_refl. Qed.

(** Every function that [addResolver] is given has a priority afterwards. *)
Lemma default_priority_keeps (rs : list nat) (prio : gmap nat Z) (r : nat) :
  is_Some (prio !! r) -> is_Some (foldl default_priority prio rs !! r).
Proof.
  revert prio. induction rs as [|x rs IH]; intros prio Hr; cbn; [exact Hr|].
  apply IH. unfold default_priority. destruct (prio !! x) eqn:E; [exact Hr|].
  destruct (decide (x = r)) as [->|Hne];
    [rewrite lookup_insert_eq; eauto|now rewrite lookup_insert_ne].
Qed.

Lemma default_priorities (rs : list nat) (prio : gmap nat Z) (r : nat) :
  r ∈ rs -> is_Some (foldl default_priority prio rs !! r).
Proof.
  revert prio. induction rs as [|x rs IH]; intros prio; [now rewrite elem_of_nil|].
  rewrite elem_of_cons. intros [->|Hr]; cbn; [|now apply IH].
  apply default_priority_keeps. unfold default_priority.
  destruct (prio !! x) eqn:E; [eauto|]. rewrite lookup_insert_eq. eauto.
Qed.

(** C5, as stated, fails: a resolver of priority 0 added to a new instance
    is put in front of the built-in resolver, which has priority 0 too and
    was there first. *)
Lemma addResolver_reverses_ties :
  resolvers fresh_proxy ++ [1] = [defaultResolverId; 1]
  /\ priority (addResolver fresh_module fresh_proxy [1]).1 !! defaultResolverId
     = Some 0%Z
  /\ priority (addResolver fresh_module fresh_proxy [1]).1 !! 1 = Some 0%Z
  /\ resolvers (addResolver fresh_module fresh_proxy [1]).2
     = [1; defaultResolverId]
  /\ ties (priority (addResolver fresh_module fresh_proxy [1]).1) 0
       (resolvers (addResolver fresh_module fresh_proxy [1]).2)
     <> ties (priority (addResolver fresh_module fresh_proxy [1]).1) 0
          (resolvers fresh_proxy ++ [1]).
Proof.
  split; [reflexivity|]. split; [reflexivity|]. split; [reflexivity|].
  split; [reflexivity|]. intros E. vm_compute in E. discriminate E.
Qed.

(** C5, amended: after [addResolver] the pipeline is in descending order of
    priority and has no duplicates; it holds exactly the resolvers it held
    and those added, each of which has a priority; and the resolvers of
    equal priority stand in the reverse of the order they had in the list
    the new ones were appended to (so the order among equals is turned
    around by every call, not kept). *)
Theorem addResolver_order (m : Module_) (this : ReverseProxy)
    (resolver : list nat) :
  cluster_master this = false ->
  descending_priority (priority (addResolver m this resolver).1)
    (resolvers (addResolver m this resolver).2)
  /\ NoDup (resolvers (addResolver m this resolver).2)
  /\ (forall r, r ∈ resolvers (addResolver m this resolver).2
                <-> r ∈ resolvers this ++ resolver)
  /\ (forall r, r ∈ resolver ->
                is_Some (priority (addResolver m this resolver).1 !! r))
  /\ (forall p,
         ties (priority (addResolver m this resolver).1) p
           (resolvers (addResolver m this resolver).2)
         = reverse (ties (priority (addResolver m this resolver).1) p
                      (uniq (resolvers this ++ resolver)))).
Proof.
  intros Hm. unfold addResolver. rewrite Hm. cbn.
  set (prio := foldl default_priority (priority m) resolver).
  split; [|split; [|split; [|split]]].
  - unfold descending_priority.
    assert (Transitive (fun a b : nat => priority_le prio b a = true)) as Htr
      by (intros a b c Hab Hbc; eapply priority_le_trans; eauto).
    apply (Sorted_StronglySorted _).
    apply (Sorted_reverse (fun a b => priority_le prio a b = true)).
    apply StronglySorted_Sorted, sortBy_StronglySorted;
      [apply priority_le_total|apply priority_le_trans].
  - rewrite reverse_Permutation, sortBy_Permutation. apply NoDup_uniq.
  - intros r. now rewrite elem_of_reverse, sortBy_Permutation, elem_of_uniq.
  - intros r. apply default_priorities.
  - intros p. unfold ties. rewrite filter_reverse. f_equal.
    apply filter_sortBy. intros x z. apply priority_le_tie.
Qed.

Lemma addResolver_order_witness :
  cluster_master fresh_proxy = false
  /\ descending_priority (priority (addResolver fresh_module fresh_proxy [1; 2]).1)
       (resolvers (addResolver fresh_module fresh_proxy [1; 2]).2).
Proof.
  split; [reflexivity|].
  apply (addResolver_order fresh_module fresh_proxy [1; 2]). reflexivity.
Defined.

(** ** The routing table *)

Lemma longer_path_first_total (r1 r2 : Route) :
  longer_path_first r1 r2 = true \/ longer_path_first r2 r1 = true.
Proof. unfold longer_path_first. rewrite !Nat.leb_le. lia. Qed.

Lemma longer_path_first_trans (r1 r2 r3 : Route) :
  longer_path_first r1 r2 = true -> longer_path_first r2 r3 = true ->
  longer_path_first r1 r3 = true.
Proof. unfold longer_path_first. rewrite !Nat.leb_le. lia. Qed.


Lemma find_route_lookup (pathname : string) (bucket : list Route) (i : nat)
    (r : Route) :
  find_route pathname bucket = Some (i, r) ->
  bucket !! i = Some r /\ path r = pathname.
Proof. unfold find_route. rewrite list_find_Some. tauto. Qed.

(** Sortedness of a bucket looks at the paths only. *)
Lemma sorted_bucket_insert (bucket : list Route) (i : nat) (r r' : Route) :
  sorted_bucket bucket -> bucket !! i = Some r -> path r' = path r ->
  sorted_bucket (<[i := r']> bucket).
Proof.
  unfold sorted_bucket. intros Hs. revert i.
  induction Hs as [|a l Hs IH Ha]; intros i Hi Hp; [constructor|].
  destruct i as [|i]; cbn in *.
  - injection Hi as ->. constructor; [exact Hs|].
    destruct Ha as [|b l Hab]; constructor.
    unfold longer_path_first in *. now rewrite Hp.
  - constructor; [now apply IH|].
    destruct Ha as [|b l Hab]; [constructor|].
    destruct i as [|i]; cbn in *; constructor; [|exact Hab].
    injection Hi as ->. unfold longer_path_first in *. now rewrite Hp.
Qed.

Lemma sorted_bucket_delete (bucket : list Route) (i : nat) :
  sorted_bucket bucket -> sorted_bucket (delete i bucket).
Proof.
  unfold sorted_bucket. intros Hs.
  assert (Transitive (fun r1 r2 => longer_path_first r1 r2 = true)) as Htr
    by (intros a b c; apply longer_path_first_trans).
  apply StronglySorted_Sorted. apply (Sorted_StronglySorted _) in Hs.
  revert i. induction Hs as [|a l Hs IH Ha]; intros [|i]; cbn;
    [constructor|constructor|exact Hs|].
  constructor; [apply IH|]. now apply Forall_delete.
Qed.

Section Table.
Context `{Platform}.

Lemma getProxy_frame (this : ReverseProxy) (src : Url) (target : Target)
    (o : option RouteOpts) :
  routing (_getProxy this src target o).2 = routing this
  /\ cluster_master (_getProxy this src target o).2 = cluster_master this
  /\ certs (_getProxy this src target o).2 = certs this.
Proof.
  unfold _getProxy. destruct (negb _); [auto|].
  destruct (_proxies this !! _); auto.
Qed.


(** The certificate part of [register] touches neither the routing table nor
    the forwarders. *)
Lemma register_certs_frame (this this1 : ReverseProxy) (src : Url)
    (o : option RouteOpts) :
  register_certs this src o = Returned (Some this1) ->
  routing this1 = routing this
  /\ _proxies this1 = _proxies this
  /\ cluster_master this1 = cluster_master this.
Proof.
  unfold register_certs. destruct (o ≫= ssl) as [s|]; outcome;
    [|now intros [= <-]].
  repeat match goal with
         | |- context [match ?x with _ => _ end] => destruct x
         end; try discriminate; intros [= <-]; auto.
Qed.


(** [register] keeps the table in shape. *)
Lemma register_route_invariant (this : ReverseProxy) (src : Url)
    (target : Target) (o : option RouteOpts) :
  table_invariant (routing this) ->
  table_invariant (routing (register_route this src target o)).
Proof.
  intros Hinv h b. unfold register_route. cbv zeta.
  destruct (find_route _ _) as [[i r]|] eqn:Hf.
  - cbn. destruct (decide (hostname src = h)) as [<-|Hne];
      [|rewrite lookup_insert_ne by exact Hne; apply Hinv].
    rewrite lookup_insert_eq. intros [= <-].
    destruct (routing this !! hostname src) as [bucket|] eqn:Hb;
      [|discriminate].
    cbn in *. destruct (Hinv _ _ Hb) as [Hs Hu].
    destruct (find_route_lookup _ _ _ _ Hf) as [Hi _]. split.
    + now apply (sorted_bucket_insert bucket i r).
    + apply Forall_insert; [exact Hu|]. cbn. now destruct (urls r).
  - destruct (getProxy_frame this src target o) as (Hgr & _).
    destruct (_getProxy this src target o) as [px this']. cbn in *.
    rewrite Hgr. destruct (decide (hostname src = h)) as [<-|Hne];
      [|rewrite lookup_insert_ne by exact Hne; apply Hinv].
    rewrite lookup_insert_eq. intros [= <-]. split.
    + apply StronglySorted_Sorted, sortBy_StronglySorted;
        [apply longer_path_first_total|apply longer_path_first_trans].
    + rewrite sortBy_Permutation. apply Forall_app. split.
      * destruct (routing this !! hostname src) as [bucket|] eqn:Hb; cbn;
          [apply (Hinv _ _ Hb)|constructor].
      * repeat constructor. discriminate.
Qed.

(** [unregister] keeps the table in shape. *)
Lemma unregister_invariant (this this' : ReverseProxy) (src : UrlArg)
    (target : option UrlArg) :
  table_invariant (routing this) ->
  unregister this src target = Returned this' ->
  table_invariant (routing this').
Proof.
  intros Hinv. unfold unregister.
  destruct (cluster_master this); [now intros [= <-]|].
  destruct (negb (arg_truthy src)); [now intros [= <-]|].
  outcome_unfold. destruct (prepareUrl src) as [s|]; [|discriminate].
  destruct (find_route _ _) as [[i r]|] eqn:Hf; [|now intros [= <-]].
  destruct (routing this !! hostname s) as [bucket|] eqn:Hb; [|discriminate].
  cbn in Hf. destruct (Hinv _ _ Hb) as [Hs Hu].
  destruct (find_route_lookup _ _ _ _ Hf) as [Hi _].
  assert (forall remaining,
             match remaining with
             | [] =>
                 Returned
                   (set_certs (delete (hostname s) <$> certs this)
                      (set_routing
                         (<[hostname s := delete i bucket]> (routing this))
                         this))
             | _ :: _ =>
                 Returned
                   (set_routing
                      (<[hostname s := <[i := set_urls remaining r]> bucket]>
                         (routing this)) this)
             end = Returned this' ->
             table_invariant (routing this')) as Hgo.
  { intros remaining Hrem h b.
    destruct remaining as [|u us]; injection Hrem as <-; cbn;
      (destruct (decide (hostname s = h)) as [<-|Hne];
       [|rewrite lookup_insert_ne by exact Hne; apply Hinv]);
      rewrite lookup_insert_eq; intros [= <-].
    - split; [now apply sorted_bucket_delete|now apply Forall_delete].
    - split; [now apply (sorted_bucket_insert bucket i r)|].
      apply Forall_insert; [exact Hu|discriminate]. }
  cbn. destruct target as [t|]; [|exact (Hgo [])].
  destruct (arg_truthy t); [|exact (Hgo [])].
  destruct (prepareUrl t) as [t'|]; [apply Hgo|discriminate].
Qed.

End Table.

(** ** [register] followed by [unregister] *)


(** The other way the round trip fails: [unregister] removes every target
    with the given [href], also one that was registered before. *)
Lemma register_unregister_removes_earlier_target :
  exists this1 this2,
    register (H := literal_urls) one_route_proxy (UrlObject example_src)
      (UrlObject target_a) None = Returned this1
    /\ unregister (H := literal_urls) this1 (UrlObject example_src)
         (Some (UrlObject target_a)) = Returned this2
    /\ (length <$> routing one_route_proxy !! "example.com") = Some 1
    /\ routing this2 !! "example.com" = Some [].
Proof. eexists _, _. repeat split; reflexivity. Qed.

Section RegisterUnregister.
Context `{Platform}.





End RegisterUnregister.


(** ** A further [register] on an existing route *)

Section ExistingRoute.
Context `{Platform}.


End ExistingRoute.


(** ** The course of [_getRouteTarget] *)

Section GetRouteTarget.
Context `{Platform}.

(** With a route resolved, a target under the round-robin index and options
    on the route, [_getRouteTarget] stores the route with the index moved
    on, rewrites the request, calls the hook and returns the route with the
    effective target. *)
Lemma getRouteTarget_found (m m1 : Module_) (this : ReverseProxy)
    (env : ResolverEnv) (src : option string) (req : Request)
    (res : option Response) (ref : RouteRef) (route : Route)
    (target : Target) (o : RouteOpts) :
  resolve m this env src (url req) req = (m1, Some (ref, route)) ->
  (select_target route).1 = Some target ->
  opts route = Some o ->
  _getRouteTarget m this env src req res
  = ((store_route ref (select_target route).2 m1 this).1,
     (store_route ref (select_target route).2 m1 this).2,
     (after_hook o (request_for_hook route target req) res target).1.1,
     (after_hook o (request_for_hook route target req) res target).1.2,
     Returned (Some ((select_target route).2,
                     (after_hook o (request_for_hook route target req) res
                        target).2))).
Proof.
  intros Hr Ht Ho. unfold _getRouteTarget. rewrite Hr.
  destruct (select_target route) as [tg route'] eqn:Hsel. cbn in Ht. subst tg.
  assert (opts route' = Some o) as Ho'.
  { unfold select_target in Hsel. injection Hsel as _ <-. exact Ho. }
  cbn [fst snd]. destruct (store_route ref route' m1 this) as [m2 this2].
  rewrite Ho'. unfold after_hook, request_for_hook. cbn [fst snd].
  destruct (onRequest o) as [hook|]; [|reflexivity].
  destruct (hook _ _ _) as [[req' res'] x]. reflexivity.
Qed.

(** Storing a route changes neither the certificates nor the options of the
    instance. *)
Lemma store_route_frame (ref : RouteRef) (route : Route) (m : Module_)
    (this : ReverseProxy) :
  certs (store_route ref route m this).2 = certs this
  /\ letsencryptHost (store_route ref route m this).2 = letsencryptHost this
  /\ opts_httpProxy (store_route ref route m this).2 = opts_httpProxy this
  /\ opts_errorHandler (store_route ref route m this).2 = opts_errorHandler this
  /\ ssl_redirect_port (store_route ref route m this).2 = ssl_redirect_port this.
Proof. destruct ref; cbn; auto. Qed.

End GetRouteTarget.

(** The round-robin step on an index that is in range: the target is the
    one under the index, and the index moves on by one modulo the number of
    targets, which keeps it in range. *)
Lemma select_target_in_range (route : Route) (n : nat) :
  rr route = Idx n -> n < length (urls route) ->
  exists t, urls route !! n = Some t
            /\ select_target route
               = (Some t, set_rr (Idx ((n + 1) mod length (urls route))) route)
            /\ rr_in_range (select_target route).2.
Proof.
  intros Hrr Hn. destruct (lookup_lt_is_Some_2 _ _ Hn) as [t Ht].
  exists t. unfold select_target, rr_in_range. rewrite Hrr, Ht.
  destruct (length (urls route)) as [|k] eqn:Hl; [lia|].
  split; [reflexivity|]. split; [reflexivity|]. cbn [snd rr set_rr urls].
  rewrite Hl. apply Nat.mod_upper_bound. lia.
Qed.

(** A further target keeps the index in range. *)
Lemma push_url_rr_in_range (t : Target) (route : Route) :
  rr_in_range route -> rr_in_range (push_url t route).
Proof.
  unfold rr_in_range, push_url. cbn. destruct (rr route); [|easy].
  rewrite length_app. cbn. lia.
Qed.

(** ** The rewriting of the url *)

(** The three cases of the test suite: a target pathname in front of the
    url, the same after the route's path is stripped, and a url of which
    only the query remains. *)
Example target_pathname_concatenated :
  url_as_amended "/" (Some "/foo/bar/qux") "/a/b/c" = "/foo/bar/qux/a/b/c".
Proof. reflexivity. Qed.

Example route_path_stripped :
  url_as_amended "/path" (Some "/foo/bar/qux") "/path/a/b/c"
  = "/foo/bar/qux/a/b/c".
Proof. reflexivity. Qed.

Example query_only_url :
  url_as_amended "/path" (Some "/foo/bar/qux") "/path?a=b"
  = "/foo/bar/qux?a=b"
  /\ url_as_amended "/path" (Some "/path") "/path?a=b" = "/path?a=b".
Proof. split; reflexivity. Qed.

(** C2, as stated, fails when nothing remains of the url: the target
    pathname is then taken as it is, not joined, so a pathname that
    [path.posix.join] would normalise stays as written. *)
Lemma getRouteTarget_does_not_join_empty_url :
  url (_getRouteTarget (H := literal_urls) fresh_module double_slash_proxy
         no_resolvers (Some "example.com") (get "/x" "example.com")
         (Some new_response)).1.1.2
  = "/foo//bar"
  /\ url_as_specified "/x" (Some "/foo//bar") "/x" = "/foo/bar"
  /\ url (_getRouteTarget (H := literal_urls) fresh_module double_slash_proxy
            no_resolvers (Some "example.com") (get "/x" "example.com")
            (Some new_response)).1.1.2
     <> url_as_specified "/x" (Some "/foo//bar") "/x".
Proof.
  split; [reflexivity|]. split; [reflexivity|].
  intros E. vm_compute in E. discriminate E.
Qed.

Section Rewriting.
Context `{Platform}.

Lemma request_for_hook_url (route : Route) (target : Target) (req : Request) :
  url (request_for_hook route target req)
  = url_as_amended (path route) (pathname (target_url target)) (url req).
Proof.
  unfold request_for_hook, url_as_amended, prepend_target_path,
    strip_route_path.
  assert (forall b r, url (if b : bool
                           then set_req_host (host (target_url target)) r
                           else r) = url r) as -> by (now intros []).
  destruct (1 <? String.length (path route))%nat; cbn [url set_url save_url];
    destruct (Js.truthy (pathname (target_url target))); try reflexivity;
    cbn [url set_url save_url];
    match goal with
    | |- context [String.eqb ?r ""] => destruct (String.eqb r "")
    end; cbn [negb url set_url];
    try match goal with
        | |- context [Js.char_at_is ?r 0 ?c] => destruct (Js.char_at_is r 0 c)
        end; reflexivity.
Qed.

(** C2, amended: for the route resolved and the target chosen,
    [_getRouteTarget] hands to the hook (or leaves, without a hook) the
    request whose url is the incoming one with the route's path stripped if
    that is longer than one character and then, if the target has a
    non-empty pathname: that pathname alone when nothing remains of the url,
    the pathname directly followed by the rest when the rest begins with a
    question mark, and the POSIX join of the two otherwise. *)
Theorem getRouteTarget_rewrites_url (m m1 : Module_) (this : ReverseProxy)
    (env : ResolverEnv) (src : option string) (req : Request)
    (res : option Response) (ref : RouteRef) (route : Route)
    (target : Target) (o : RouteOpts) :
  resolve m this env src (url req) req = (m1, Some (ref, route)) ->
  (select_target route).1 = Some target ->
  opts route = Some o ->
  url (request_for_hook route target req)
  = url_as_amended (path route) (pathname (target_url target)) (url req)
  /\ (_getRouteTarget m this env src req res).1.1.2
     = (after_hook o (request_for_hook route target req) res target).1.1
  /\ (onRequest o = None ->
      url (_getRouteTarget m this env src req res).1.1.2
      = url_as_amended (path route) (pathname (target_url target)) (url req)).
Proof.
  intros Hr Ht Ho. split; [apply request_for_hook_url|].
  rewrite (getRouteTarget_found _ _ _ _ _ _ _ _ _ _ _ Hr Ht Ho). cbn [fst snd].
  split; [reflexivity|]. intros Hno. unfold after_hook. rewrite Hno.
  apply request_for_hook_url.
Qed.

End Rewriting.

Lemma getRouteTarget_rewrites_url_witness :
  url (_getRouteTarget (H := literal_urls) fresh_module double_slash_proxy
         no_resolvers (Some "example.com") (get "/x?a=b" "example.com")
         (Some new_response)).1.1.2
  = "/foo//bar?a=b".
Proof.
  pose proof (getRouteTarget_rewrites_url (H := literal_urls) fresh_module
                fresh_module double_slash_proxy no_resolvers
                (Some "example.com") (get "/x?a=b" "example.com")
                (Some new_response) (InTable "example.com" 0)
                {| path := "/x"; rr := Idx 0;
                   urls := [mkTarget target_double_slash false false];
                   opts := Some no_opts; proxy := Some DefaultProxy;
                   isResolved := false |}
                (mkTarget target_double_slash false false) no_opts
                eq_refl eq_refl eq_refl) as (_ & _ & Hurl).
  rewrite (Hurl eq_refl). reflexivity.
Defined.

(** ** The round-robin index *)

(** C3 at the input where the code departs from it. Two targets are
    registered for [example.com], one request is served (the index moves to
    1), and the second target is unregistered: the route is left with one
    target and index 1, outside its range; the next selection finds no
    target under the index, and [_getRouteTarget] throws. *)
Theorem unregister_leaves_rr_out_of_range :
  exists this1 this2 this3 this4 route,
    register (H := literal_urls) fresh_proxy (UrlObject example_src)
      (UrlObject target_a) None = Returned this1
    /\ register (H := literal_urls) this1 (UrlObject example_src)
         (UrlObject target_b) None = Returned this2
    /\ _getRouteTarget (H := literal_urls) fresh_module this2 no_resolvers
         (Some "example.com") (get "/" "example.com") (Some new_response)
       = (fresh_module, this3, get "/" "example.com", Some new_response,
          Returned (Some ({| path := "/"; rr := Idx 1;
                             urls := [mkTarget target_a false false;
                                      mkTarget target_b false false];
                             opts := Some no_opts;
                             proxy := Some DefaultProxy;
                             isResolved := false |},
                          ETarget (mkTarget target_a false false))))
    /\ unregister (H := literal_urls) this3 (UrlObject example_src)
         (Some (UrlObject target_b)) = Returned this4
    /\ routing this4 !! "example.com" = Some [route]
    /\ urls route = [mkTarget target_a false false]
    /\ rr route = Idx 1
    /\ ~ rr_in_range route
    /\ (select_target route).1 = None
    /\ (_getRouteTarget (H := literal_urls) fresh_module this4 no_resolvers
          (Some "example.com") (get "/" "example.com") (Some new_response)).2
       = Thrown (TypeError "Cannot read property 'pathname' of undefined").
Proof.
  eexists _, _, _, _, _.
  split; [reflexivity|]. split; [reflexivity|]. split; [reflexivity|].
  split; [reflexivity|]. split; [reflexivity|]. split; [reflexivity|].
  split; [reflexivity|]. split; [|split; reflexivity].
  intros Hr. vm_compute in Hr. lia.
Qed.

(** ** The [onRequest] hook *)


Section Hook.
Context `{Platform}.



End Hook.


(** * Further properties

    ** The shape of the routing table *)

Lemma distinct_paths_insert (bucket : list Route) (i : nat) (r r' : Route) :
  distinct_paths bucket -> bucket !! i = Some r -> path r' = path r ->
  distinct_paths (<[i := r']> bucket).
Proof.
  unfold distinct_paths. intros Hd Hi Hp.
  rewrite list_fmap_insert, Hp, list_insert_id; [exact Hd|].
  now rewrite list_lookup_fmap, Hi.
Qed.

Lemma distinct_paths_delete (bucket : list Route) (i : nat) :
  distinct_paths bucket -> distinct_paths (delete i bucket).
Proof.
  unfold distinct_paths. intros Hd. rewrite list_fmap_delete.
  eapply sublist_NoDup; [exact Hd|]. apply sublist_delete.
Qed.

Section TableShape.
Context `{Platform}.

(** What a [register] that returns has done: nothing, or its routing part
    on an instance with the same routing table. *)
Lemma register_returned (this this' : ReverseProxy) (src target : UrlArg)
    (o : option RouteOpts) :
  register this src target o = Returned this' ->
  this' = this
  \/ exists this1 s t,
       prepareUrl src = Returned s
       /\ buildTarget target o = Returned t
       /\ routing this1 = routing this
       /\ this' = register_route this1 s t o.
Proof.
  unfold register. destruct (cluster_master this); [intros [= <-]; now left|].
  outcome_unfold. destruct (arg_truthy src && arg_truthy target); [|discriminate].
  destruct (prepareUrl src) as [s|]; [|discriminate].
  destruct (buildTarget target o) as [t|]; [|discriminate].
  destruct (register_certs this s o) as [[this1|]|] eqn:Hc;
    [|intros [= <-]; now left|discriminate].
  intros [= <-]. right. exists this1, s, t.
  destruct (register_certs_frame _ _ _ _ Hc) as (Hr & _). auto.
Qed.

Lemma register_route_distinct_paths (this : ReverseProxy) (src : Url)
    (target : Target) (o : option RouteOpts) :
  (forall h b, routing this !! h = Some b -> distinct_paths b) ->
  forall h b, routing (register_route this src target o) !! h = Some b ->
              distinct_paths b.
Proof.
  intros Hinv h b. unfold register_route. cbv zeta.
  destruct (find_route _ _) as [[i r]|] eqn:Hf.
  - cbn. destruct (decide (hostname src = h)) as [<-|Hne];
      [|rewrite lookup_insert_ne by exact Hne; apply Hinv].
    rewrite lookup_insert_eq. intros [= <-].
    destruct (routing this !! hostname src) as [bucket|] eqn:Hb;
      [|discriminate].
    cbn in *. destruct (find_route_lookup _ _ _ _ Hf) as [Hi _].
    apply (distinct_paths_insert bucket i r); eauto.
  - destruct (getProxy_frame this src target o) as (Hgr & _).
    destruct (_getProxy this src target o) as [px this']. cbn in *.
    rewrite Hgr. destruct (decide (hostname src = h)) as [<-|Hne];
      [|rewrite lookup_insert_ne by exact Hne; apply Hinv].
    rewrite lookup_insert_eq. intros [= <-]. unfold distinct_paths.
    rewrite sortBy_Permutation, fmap_app. cbn.
    apply NoDup_app. split; [|split].
    + destruct (routing this !! hostname src) as [bucket|] eqn:Hb; cbn;
        [exact (Hinv _ _ Hb)|constructor].
    + intros p Hp. rewrite list_elem_of_singleton. intros ->.
      apply list_elem_of_fmap in Hp as (r & Hr & Hin).
      apply list_find_None in Hf.
      rewrite Forall_forall in Hf. exact (Hf r Hin (eq_sym Hr)).
    + apply NoDup_singleton.
Qed.

(** X1: a [register] that returns keeps the routing table in shape: every
    bucket sorted by descending path length, no route without a target, no
    two routes of a bucket with the same path. *)
Theorem register_keeps_table_shape (this this' : ReverseProxy)
    (src target : UrlArg) (o : option RouteOpts) :
  register this src target o = Returned this' ->
  table_shape (routing this) -> table_shape (routing this').
Proof.
  intros Hreg [Hinv Hd].
  destruct (register_returned _ _ _ _ _ Hreg)
    as [->|(this1 & s & t & _ & _ & Hr & ->)]; [now split|].
  rewrite <- Hr in Hinv, Hd. split.
  - now apply register_route_invariant.
  - now apply register_route_distinct_paths.
Qed.

(** X2: an [unregister] that returns keeps the routing table in shape. *)
Theorem unregister_keeps_table_shape (this this' : ReverseProxy)
    (src : UrlArg) (target : option UrlArg) :
  unregister this src target = Returned this' ->
  table_shape (routing this) -> table_shape (routing this').
Proof.
  intros Hun [Hinv Hd]. split; [now apply (unregister_invariant this this' src target)|].
  revert Hun. unfold unregister.
  destruct (cluster_master this); [now intros [= <-]|].
  destruct (negb (arg_truthy src)); [now intros [= <-]|].
  outcome_unfold. destruct (prepareUrl src) as [s|]; [|discriminate].
  destruct (find_route _ _) as [[i r]|] eqn:Hf; [|now intros [= <-]].
  destruct (routing this !! hostname s) as [bucket|] eqn:Hb; [|discriminate].
  cbn in Hf. destruct (find_route_lookup _ _ _ _ Hf) as [Hi _].
  assert (forall remaining,
             match remaining with
             | [] =>
                 Returned
                   (set_certs (delete (hostname s) <$> certs this)
                      (set_routing
                         (<[hostname s := delete i bucket]> (routing this))
                         this))
             | _ :: _ =>
                 Returned
                   (set_routing
                      (<[hostname s := <[i := set_urls remaining r]> bucket]>
                         (routing this)) this)
             end = Returned this' ->
             forall h b, routing this' !! h = Some b -> distinct_paths b) as Hgo.
  { intros remaining Hrem h b.
    destruct remaining as [|u us]; injection Hrem as <-; cbn;
      (destruct (decide (hostname s = h)) as [<-|Hne];
       [|rewrite lookup_insert_ne by exact Hne; apply Hd]);
      rewrite lookup_insert_eq; intros [= <-].
    - apply distinct_paths_delete. eauto.
    - apply (distinct_paths_insert bucket i r); eauto. }
  cbn. destruct target as [t|]; [|exact (Hgo [])].
  destruct (arg_truthy t); [|exact (Hgo [])].
  destruct (prepareUrl t) as [t'|]; [apply Hgo|discriminate].
Qed.

End TableShape.

(** ** Registration and the table resolver *)






(** In a sorted bucket the paths do not get longer. *)
Lemma sorted_bucket_lookup (bucket : list Route) (j i : nat) (y x : Route) :
  sorted_bucket bucket -> bucket !! j = Some y -> bucket !! i = Some x ->
  j < i -> String.length (path x) <= String.length (path y).
Proof.
  unfold sorted_bucket. intros Hs.
  assert (Transitive (fun r1 r2 => longer_path_first r1 r2 = true)) as Htr
    by (intros a b c; apply longer_path_first_trans).
  apply (Sorted_StronglySorted _) in Hs. revert j i.
  induction Hs as [|a l Hs IH Ha]; intros j i Hj Hi Hji; [discriminate|].
  destruct i as [|i]; [lia|]. destruct j as [|j]; cbn in *.
  - injection Hj as ->. rewrite Forall_forall in Ha.
    apply list_elem_of_lookup_2 in Hi. specialize (Ha x Hi).
    unfold longer_path_first in Ha. now apply Nat.leb_le.
  - apply (IH j i); [assumption..|lia].
Qed.

Section RegisterLookup.
Context `{Platform}.



End RegisterLookup.


(** ** Removal of routes *)



(** With distinct paths, the route found is the only one with its path. *)
Lemma find_route_delete (pathname : string) (bucket : list Route) (i : nat)
    (r : Route) :
  distinct_paths bucket ->
  find_route pathname bucket = Some (i, r) ->
  find_route pathname (delete i bucket) = None.
Proof.
  unfold distinct_paths, find_route. intros Hd Hf.
  apply list_find_Some in Hf as (Hi & Hp & _).
  apply list_find_None, Forall_forall. intros y Hy Hpy.
  apply list_elem_of_lookup in Hy as [j Hj].
  assert (path <$> bucket !! i = Some pathname) as Hpi
    by (rewrite Hi; cbn; congruence).
  rewrite <- list_lookup_fmap in Hpi.
  destruct (decide (j < i)) as [Hlt|Hge].
  - rewrite list_lookup_delete_lt in Hj by exact Hlt.
    assert ((path <$> bucket) !! j = Some pathname) as Hpj
      by (rewrite list_lookup_fmap, Hj; cbn; congruence).
    pose proof (NoDup_lookup _ _ _ _ Hd Hpi Hpj). lia.
  - rewrite list_lookup_delete_ge in Hj by lia.
    assert ((path <$> bucket) !! S j = Some pathname) as Hpj
      by (rewrite list_lookup_fmap, Hj; cbn; congruence).
    pose proof (NoDup_lookup _ _ _ _ Hd Hpi Hpj). lia.
Qed.

Section Removal.
Context `{Platform}.

(** X4: [unregister] of a source without a target removes the route of the
    source's host and path: on a bucket with distinct paths no route with
    that path is left, and every route with another path stays. *)
Theorem unregister_removes_route (this : ReverseProxy) (src : UrlArg)
    (s : Url) (bucket : list Route) (i : nat) (r : Route) :
  cluster_master this = false ->
  arg_truthy src = true ->
  prepareUrl src = Returned s ->
  routing this !! hostname s = Some bucket ->
  find_route (Js.or_else (pathname s) "/") bucket = Some (i, r) ->
  distinct_paths bucket ->
  exists this' bucket',
    unregister this src None = Returned this'
    /\ routing this' !! hostname s = Some bucket'
    /\ find_route (Js.or_else (pathname s) "/") bucket' = None
    /\ (forall r', r' ∈ bucket -> path r' <> Js.or_else (pathname s) "/" ->
                   r' ∈ bucket')
    /\ (forall h, h <> hostname s -> routing this' !! h = routing this !! h).
Proof.
  intros Hm Hs Hps Hb Hf Hd.
  exists (set_certs (delete (hostname s) <$> certs this)
            (set_routing (<[hostname s := delete i bucket]> (routing this)) this)),
         (delete i bucket).
  split; [|split; [|split; [|split]]].
  - unfold unregister. rewrite Hm, Hs. outcome_unfold. rewrite Hps, Hb.
    change (default [] (Some bucket)) with bucket. now rewrite Hf.
  - cbn. apply lookup_insert_eq.
  - now apply (find_route_delete _ bucket i r).
  - intros r' Hr' Hp. destruct (find_route_lookup _ _ _ _ Hf) as [Hi Hpr].
    apply list_elem_of_lookup in Hr' as [j Hj].
    assert (j <> i) as Hji by (intros ->; congruence).
    apply list_elem_of_lookup.
    destruct (decide (j < i)) as [Hlt|Hge].
    + exists j. now rewrite list_lookup_delete_lt.
    + exists (j - 1). rewrite list_lookup_delete_ge by lia.
      now replace (S (j - 1)) with j by lia.
  - intros h Hne. cbn. now rewrite lookup_insert_ne.
Qed.

(** X5: when [unregister] removes a route, the host's certificate entry
    goes with it, whatever other routes the host still has: afterwards no
    request for that host is redirected to HTTPS. *)
Theorem unregister_drops_certificate (this : ReverseProxy) (src : UrlArg)
    (s : Url) (bucket : list Route) (i : nat) (r : Route) :
  cluster_master this = false ->
  arg_truthy src = true ->
  prepareUrl src = Returned s ->
  routing this !! hostname s = Some bucket ->
  find_route (Js.or_else (pathname s) "/") bucket = Some (i, r) ->
  exists this',
    unregister this src None = Returned this'
    /\ (forall cs, certs this' = Some cs -> cs !! hostname s = None)
    /\ forall target,
         shouldRedirectToHttps this' (Some (hostname s)) target = false.
Proof.
  intros Hm Hs Hps Hb Hf.
  exists (set_certs (delete (hostname s) <$> certs this)
            (set_routing (<[hostname s := delete i bucket]> (routing this)) this)).
  split; [|split].
  - unfold unregister. rewrite Hm, Hs. outcome_unfold. rewrite Hps, Hb.
    change (default [] (Some bucket)) with bucket. now rewrite Hf.
  - cbn. destruct (certs this) as [cs0|]; cbn; [|discriminate].
    intros cs [= <-]. apply lookup_delete_eq.
  - intros target. unfold shouldRedirectToHttps. cbn.
    destruct (certs this) as [cs0|]; cbn; [|reflexivity].
    rewrite lookup_delete_eq. rewrite bool_decide_eq_false_2; [reflexivity|].
    intros [x Hx]. discriminate.
Qed.


End Removal.

Lemma unregister_removes_route_witness :
  exists this' bucket',
    unregister (H := literal_urls) one_route_proxy (UrlObject example_src) None
    = Returned this'
    /\ routing this' !! "example.com" = Some bucket'
    /\ find_route "/" bucket' = None.
Proof.
  destruct (unregister_removes_route (H := literal_urls) one_route_proxy
              (UrlObject example_src) example_src
              [{| path := "/"; rr := Idx 0;
                  urls := [mkTarget target_a false false];
                  opts := Some no_opts; proxy := Some DefaultProxy;
                  isResolved := false |}]
              0
              {| path := "/"; rr := Idx 0;
                 urls := [mkTarget target_a false false];
                 opts := Some no_opts; proxy := Some DefaultProxy;
                 isResolved := false |}
              eq_refl eq_refl eq_refl eq_refl eq_refl)
    as (this' & bucket' & Hun & Hb & Hf & _).
  - repeat constructor. apply not_elem_of_nil.
  - exists this', bucket'. auto.
Defined.

Lemma table_shape_empty : table_shape (∅ : gmap string (list Route)).
Proof.
  split; intros h b Hb; rewrite lookup_empty in Hb; discriminate.
Qed.

Lemma one_route_proxy_table_shape : table_shape (routing one_route_proxy).
Proof.
  split.
  - apply register_route_invariant. apply table_shape_empty.
  - apply register_route_distinct_paths. apply table_shape_empty.
Qed.

Lemma register_keeps_table_shape_witness :
  table_shape (routing one_route_proxy).
Proof.
  apply (register_keeps_table_shape (H := literal_urls) fresh_proxy
           one_route_proxy (UrlObject example_src) (UrlObject target_a) None).
  - reflexivity.
  - apply table_shape_empty.
Defined.

Lemma unregister_keeps_table_shape_witness :
  exists this',
    unregister (H := literal_urls) one_route_proxy (UrlObject example_src) None
    = Returned this'
    /\ table_shape (routing this').
Proof.
  eexists. split; [reflexivity|].
  eapply (unregister_keeps_table_shape (H := literal_urls) one_route_proxy _
            (UrlObject example_src) None).
  - reflexivity.
  - apply one_route_proxy_table_shape.
Defined.

Lemma unregister_drops_certificate_witness :
  exists this',
    unregister (H := literal_urls) secured_proxy (UrlObject example_src_x) None
    = Returned this'
    /\ (exists bucket, routing this' !! "example.com" = Some bucket
                       /\ bucket <> [])
    /\ forall target,
         shouldRedirectToHttps this' (Some "example.com") target = false.
Proof.
  edestruct (unregister_drops_certificate (H := literal_urls) secured_proxy
               (UrlObject example_src_x) example_src_x)
    as (this' & Hun & _ & Hno);
    [reflexivity|reflexivity|reflexivity|vm_compute; reflexivity
    |vm_compute; reflexivity|].
  exists this'. split; [exact Hun|split; [|exact Hno]].
  vm_compute in Hun. injection Hun as <-. eexists. split; [reflexivity|].
  discriminate.
Defined.


(** ** The default resolver and [resolve] *)

Lemma lower_ascii_idem (c : ascii) : lower_ascii (lower_ascii c) = lower_ascii c.
Proof.
  destruct c as [[] [] [] [] [] [] [] []]; reflexivity.
Qed.

Lemma toLowerCase_idem (s : string) : toLowerCase (toLowerCase s) = toLowerCase s.
Proof.
  induction s as [|c s IH]; cbn; [reflexivity|].
  now rewrite lower_ascii_idem, IH.
Qed.

(** X7: the route the default resolver answers with is the most specific
    one: it matches the url, and in a table kept by [register] no route of
    the host that matches the url has a longer path. *)
Theorem defaultResolver_most_specific (this : ReverseProxy)
    (host url h : string) (i : nat) (r : Route) :
  table_invariant (routing this) ->
  _defaultResolver this (Some host) url = RTableRoute h i r ->
  exists bucket,
    h = host
    /\ routing this !! host = Some bucket
    /\ bucket !! i = Some r
    /\ route_matches (if String.eqb url "" then "/" else url) r = true
    /\ forall r', r' ∈ bucket ->
         route_matches (if String.eqb url "" then "/" else url) r' = true ->
         String.length (path r') <= String.length (path r).
Proof.
  intros Hinv. unfold _defaultResolver.
  destruct (negb (Js.truthy (Some host))) eqn:Ht; [discriminate|].
  assert (Js.or_else (Some host) "" = host) as ->.
  { cbn in *. now destruct (String.eqb host ""). }
  destruct (routing this !! host) as [bucket|] eqn:Hb; [|discriminate].
  destruct (list_find _ bucket) as [[i' r0]|] eqn:Hf; [|discriminate].
  intros [= <- <- <-]. exists bucket.
  apply list_find_Some in Hf as (Hi & Hm & Hfirst).
  split; [reflexivity|split; [reflexivity|split; [exact Hi|split]]].
  - unfold route_matches. now apply Is_true_true.
  - intros r' Hr' Hm'. apply list_elem_of_lookup in Hr' as [j Hj].
    destruct (Hinv _ _ Hb) as [Hs _].
    destruct (decide (j < i')) as [Hlt|Hge].
    + exfalso. apply (Hfirst j r' Hj Hlt). now apply Is_true_true.
    + destruct (decide (j = i')) as [->|Hne].
      * assert (r' = r0) as -> by congruence. lia.
      * apply (sorted_bucket_lookup bucket i' j r0 r' Hs Hi Hj). lia.
Qed.

Lemma secured_proxy_table_shape : table_shape (routing secured_proxy).
Proof.
  change secured_proxy with
    (register_route
       (register_route
          (set_certs
             (Some {[ "example.com" :=
                      Credentials (Some "k.pem") (Some "c.pem") None ]})
             fresh_ssl_proxy)
          example_src (mkTarget target_a true false) (Some ssl_keys))
       example_src_x (mkTarget target_b false false) None).
  split.
  - do 2 apply register_route_invariant. apply table_shape_empty.
  - do 2 apply register_route_distinct_paths. apply table_shape_empty.
Qed.

Lemma defaultResolver_most_specific_witness :
  exists bucket,
    routing secured_proxy !! "example.com" = Some bucket
    /\ forall r', r' ∈ bucket -> route_matches "/x/y" r' = true ->
         String.length (path r') <= 2.
Proof.
  destruct (_defaultResolver secured_proxy (Some "example.com") "/x/y")
    as [| | |h i r| |] eqn:Hd; try (vm_compute in Hd; discriminate).
  destruct (defaultResolver_most_specific secured_proxy "example.com" "/x/y"
              h i r (proj1 secured_proxy_table_shape) Hd)
    as (bucket & _ & Hb & _ & _ & Hmax).
  exists bucket. split; [exact Hb|].
  intros r' Hr' Hm'. pose proof (Hmax r' Hr' Hm') as Hle.
  vm_compute in Hd. injection Hd as _ _ Hr. rewrite <- Hr in Hle. exact Hle.
Defined.

(** ** Round robin *)

Lemma set_rr_set_rr (a b : RrIndex) (route : Route) :
  set_rr a (set_rr b route) = set_rr a route.
Proof. now destruct route. Qed.

Lemma set_rr_id (route : Route) : set_rr (rr route) route = route.
Proof. now destruct route. Qed.

(** [n] requests on a route whose index is in range. *)
Lemma select_targets_seq (n : nat) (route : Route) (i : nat) :
  rr route = Idx i -> i < length (urls route) ->
  select_targets n route
  = ((fun k => urls route !! ((i + k) mod length (urls route))) <$> seq 0 n,
     set_rr (Idx ((i + n) mod length (urls route))) route).
Proof.
  revert route i. induction n as [|n IH]; intros route i Hrr Hi.
  - cbn [select_targets seq fmap list_fmap]. rewrite Nat.add_0_r.
    rewrite Nat.mod_small by exact Hi. now rewrite <- Hrr, set_rr_id.
  - cbn [select_targets].
    destruct (select_target_in_range route i Hrr Hi) as (t & Ht & -> & _).
    rewrite (IH _ ((i + 1) mod length (urls route)));
      [|now destruct route
       |destruct route; cbn in *; apply Nat.mod_upper_bound; lia].
    assert (urls (set_rr (Idx ((i + 1) mod length (urls route))) route)
            = urls route) as -> by now destruct route.
    rewrite set_rr_set_rr. f_equal.
    + cbn [seq fmap list_fmap]. f_equal.
      * now rewrite Nat.add_0_r, Nat.mod_small by exact Hi.
      * rewrite <- fmap_S_seq, <- list_fmap_compose.
        apply list_fmap_ext. intros _ k _. cbn. f_equal.
        rewrite Nat.Div0.add_mod_idemp_l. f_equal. lia.
    + do 2 f_equal. rewrite Nat.Div0.add_mod_idemp_l. f_equal. lia.
Qed.

(** X8: round robin: on a route whose index is in range, the [k]-th of a
    run of successive requests gets the target [k] places after the index,
    counted round the list of targets. *)
Theorem round_robin_kth (n k : nat) (route : Route) (i : nat) :
  rr route = Idx i -> i < length (urls route) -> k < n ->
  (select_targets n route).1 !! k
  = Some (urls route !! ((i + k) mod length (urls route)))
  /\ is_Some (urls route !! ((i + k) mod length (urls route))).
Proof.
  intros Hrr Hi Hk. rewrite (select_targets_seq n route i Hrr Hi).
  cbn [fst]. rewrite list_lookup_fmap, lookup_seq_lt by exact Hk. cbn.
  split; [reflexivity|]. apply lookup_lt_is_Some_2, Nat.mod_upper_bound. lia.
Qed.

(** X9: round robin is fair and periodic: as many successive requests as
    the route has targets get every target once, and leave the route as it
    was. *)
Theorem round_robin_cycle (route : Route) (i : nat) :
  rr route = Idx i -> i < length (urls route) ->
  (select_targets (length (urls route)) route).1 ≡ₚ Some <$> urls route
  /\ (select_targets (length (urls route)) route).2 = route.
Proof.
  intros Hrr Hi. rewrite (select_targets_seq _ route i Hrr Hi). cbn [fst snd].
  split.
  - assert ((fun k => urls route !! ((i + k) mod length (urls route)))
              <$> seq 0 (length (urls route))
            = Some <$> rotate i (urls route)) as ->.
    { apply list_eq. intros k. rewrite !list_lookup_fmap.
      destruct (decide (k < length (urls route))) as [Hk|Hk].
      - rewrite lookup_seq_lt by exact Hk. cbn.
        rewrite lookup_rotate_r by exact Hk.
        unfold rotate_nat_add.
        replace (Z.to_nat ((Z.of_nat i + Z.of_nat k)
                           `mod` Z.of_nat (length (urls route))))
          with ((i + k) mod length (urls route))
          by (rewrite <- Nat2Z.inj_add, <- Nat2Z.inj_mod; lia).
        destruct (urls route !! ((i + k) mod length (urls route))) eqn:Hl;
          [reflexivity|].
        apply lookup_ge_None in Hl.
        pose proof (Nat.mod_upper_bound (i + k) (length (urls route))). lia.
      - rewrite lookup_seq_ge by lia. cbn.
        rewrite (proj2 (lookup_ge_None _ _)); [reflexivity|].
        rewrite length_rotate. lia. }
    apply fmap_Permutation. unfold rotate.
    rewrite Permutation_app_comm. now rewrite take_drop.
  - rewrite <- (Nat.mul_1_l (length (urls route))) at 1.
    rewrite Nat.Div0.mod_add, Nat.mod_small by exact Hi.
    now rewrite <- Hrr, set_rr_id.
Qed.

Lemma round_robin_kth_witness :
  (select_targets 3
     {| path := "/"; rr := Idx 1;
        urls := [mkTarget target_a false false; mkTarget target_b false false];
        opts := Some no_opts; proxy := Some DefaultProxy;
        isResolved := false |}).1 !! 2
  = Some (Some (mkTarget target_b false false)).
Proof.
  exact (proj1 (round_robin_kth 3 2
     {| path := "/"; rr := Idx 1;
        urls := [mkTarget target_a false false; mkTarget target_b false false];
        opts := Some no_opts; proxy := Some DefaultProxy;
        isResolved := false |} 1 eq_refl ltac:(cbn; lia) ltac:(lia))).
Defined.

Lemma round_robin_cycle_witness :
  (select_targets 2
     {| path := "/"; rr := Idx 1;
        urls := [mkTarget target_a false false; mkTarget target_b false false];
        opts := Some no_opts; proxy := Some DefaultProxy;
        isResolved := false |}).1
  ≡ₚ [Some (mkTarget target_a false false); Some (mkTarget target_b false false)].
Proof.
  exact (proj1 (round_robin_cycle
     {| path := "/"; rr := Idx 1;
        urls := [mkTarget target_a false false; mkTarget target_b false false];
        opts := Some no_opts; proxy := Some DefaultProxy;
        isResolved := false |} 1 eq_refl ltac:(cbn; lia))).
Defined.

Lemma defaultResolver_cases (this : ReverseProxy) (host : option string)
    (url : string) :
  _defaultResolver this host url = RUndefined
  \/ exists h i r, _defaultResolver this host url = RTableRoute h i r.
Proof.
  unfold _defaultResolver.
  repeat match goal with
         | |- context [match ?x with _ => _ end] => destruct x
         end; eauto.
Qed.

(** With the default resolver alone, a route that [resolve] answers with
    sits in the routing table, in the bucket of the lower-cased host. *)
Lemma resolve_default_only `{Platform} (m m' : Module_)
    (this : ReverseProxy) (env : ResolverEnv) (host : option string)
    (url : string) (req : Request) (ref : RouteRef) (r : Route) :
  resolvers this = [defaultResolverId] ->
  resolve m this env host url req = (m', Some (ref, r)) ->
  m' = m
  /\ exists h i bucket,
       host = Some h
       /\ ref = InTable (toLowerCase h) i
       /\ routing this !! toLowerCase h = Some bucket
       /\ bucket !! i = Some r.
Proof.
  intros Hres. unfold resolve. rewrite Hres. cbn [fmap list_fmap].
  rewrite bool_decide_eq_true_2 by reflexivity.
  unfold _defaultResolver.
  destruct host as [host|]; [|outcome; discriminate].
  destruct (Js.truthy (Some host)) eqn:Ht.
  - cbn [fmap option_fmap option_map].
    assert (Js.truthy (Some (toLowerCase host)) = true) as Ht'.
    { cbn in *. destruct host; [discriminate|reflexivity]. }
    rewrite Ht'. cbn [negb].
    assert (Js.or_else (Some (toLowerCase host)) "" = toLowerCase host) as ->.
    { cbn in *. now destruct (String.eqb (toLowerCase host) ""). }
    destruct (routing this !! toLowerCase host) as [bucket|] eqn:Hb;
      [|outcome; discriminate].
    destruct (list_find _ bucket) as [[i r0]|] eqn:Hf; [|outcome; discriminate].
    apply list_find_Some in Hf as (Hi & _ & _).
    outcome.
    repeat match goal with
           | |- context [if ?b then _ else _] => destruct b
           end; intros [= <- <- <-] || discriminate;
      (split; [reflexivity|exists host, i, bucket; auto]).
  - rewrite Ht. outcome. discriminate.
Qed.

(** X10: with the default resolver alone, [resolve] answers from the
    routing table, and from the bucket of the lower-cased host: a route
    filed under a host name with an upper-case letter is never found. *)
Theorem resolve_uses_lowercase_host `{Platform} (m m' : Module_)
    (this : ReverseProxy) (env : ResolverEnv) (host url : string)
    (req : Request) (ref : RouteRef) (r : Route) :
  resolvers this = [defaultResolverId] ->
  resolve m this env (Some host) url req = (m', Some (ref, r)) ->
  exists i bucket,
    ref = InTable (toLowerCase host) i
    /\ routing this !! toLowerCase host = Some bucket
    /\ bucket !! i = Some r
    /\ toLowerCase (toLowerCase host) = toLowerCase host.
Proof.
  intros Hres Hr.
  destruct (resolve_default_only _ _ _ _ _ _ _ _ _ Hres Hr)
    as (_ & h & i & bucket & [= <-] & Href & Hb & Hi).
  exists i, bucket. auto using toLowerCase_idem.
Qed.

Lemma resolve_uses_lowercase_host_witness :
  exists m' ref r,
    resolve (H := literal_urls) fresh_module one_route_proxy no_resolvers
      (Some "EXAMPLE.com") "/a" (get "/a" "EXAMPLE.com")
    = (m', Some (ref, r))
    /\ ref = InTable "example.com" 0.
Proof.
  destruct (resolve (H := literal_urls) fresh_module one_route_proxy
              no_resolvers (Some "EXAMPLE.com") "/a" (get "/a" "EXAMPLE.com"))
    as [m' [[ref r]|]] eqn:Hr; [|vm_compute in Hr; discriminate].
  destruct (resolve_uses_lowercase_host (H := literal_urls) fresh_module m'
              one_route_proxy no_resolvers "EXAMPLE.com" "/a"
              (get "/a" "EXAMPLE.com") ref r eq_refl Hr)
    as (i & bucket & Href & Hb & Hi & _).
  exists m', ref, r. split; [reflexivity|].
  vm_compute in Hr. now injection Hr as _ <- _.
Defined.

(** ** What a request leaves behind *)

Lemma forget_rr_store (table : gmap string (list Route)) (h : string)
    (i : nat) (bucket : list Route) (r : Route) (x : RrIndex) :
  table !! h = Some bucket -> bucket !! i = Some r ->
  forget_rr (alter (fun b => <[i := set_rr x r]> b) h table) = forget_rr table.
Proof.
  intros Hb Hi. unfold forget_rr. apply map_eq. intros h'.
  rewrite !lookup_fmap. destruct (decide (h = h')) as [<-|Hne].
  - rewrite lookup_alter_eq, Hb. cbn. f_equal.
    rewrite list_fmap_insert, set_rr_set_rr. apply list_insert_id.
    now rewrite list_lookup_fmap, Hi.
  - now rewrite lookup_alter_ne.
Qed.

(** X11: with the default resolver alone, whatever [_getRouteTarget] does
    with a request, it leaves the route cache and the instance as they
    were but for the round-robin indices in the routing table: no route,
    target, option or certificate is changed by serving. *)
Theorem getRouteTarget_changes_only_rr `{Platform} (m : Module_)
    (this : ReverseProxy) (env : ResolverEnv) (src : option string)
    (req : Request) (res : option Response) :
  resolvers this = [defaultResolverId] ->
  let m' := (_getRouteTarget m this env src req res).1.1.1.1 in
  let this' := (_getRouteTarget m this env src req res).1.1.1.2 in
  m' = m
  /\ this' = set_routing (routing this') this
  /\ forget_rr (routing this') = forget_rr (routing this).
Proof.
  intros Hres. unfold _getRouteTarget.
  destruct (resolve m this env src (url req) req) as [m1 [[ref r]|]] eqn:Hr.
  - destruct (resolve_default_only _ _ _ _ _ _ _ _ _ Hres Hr)
      as (-> & h & i & bucket & -> & -> & Hb & Hi).
    unfold select_target. cbn [store_route].
    repeat match goal with
           | |- context [match ?x with _ => _ end] =>
               lazymatch x with
               | context [match _ with _ => _ end] => fail
               | _ => destruct x eqn:?
               end
           end; cbn [fst snd routing set_routing];
      (split; [reflexivity|split;
        [now destruct this|exact (forget_rr_store _ _ _ _ _ _ Hb Hi)]]).
  - cbn. assert (m1 = m) as ->.
    { unfold resolve in Hr. rewrite Hres in Hr. cbn [fmap list_fmap] in Hr.
      rewrite bool_decide_eq_true_2 in Hr by reflexivity.
      destruct (defaultResolver_cases this
                  (if Js.truthy src then toLowerCase <$> src else src) (url req))
        as [Hd|(h & i & r & Hd)]; rewrite Hd in Hr; outcome.
      - now injection Hr as <-.
      - repeat match type of Hr with
               | context [if ?b then _ else _] => destruct b
               end; now injection Hr as <-. }
    split; [reflexivity|]. split; [now destruct this|reflexivity].
Qed.

Lemma getRouteTarget_changes_only_rr_witness :
  forget_rr
    (routing (_getRouteTarget (H := literal_urls) fresh_module secured_proxy
                no_resolvers (Some "example.com") (get "/x/y" "example.com")
                (Some new_response)).1.1.1.2)
  = forget_rr (routing secured_proxy).
Proof.
  exact (proj2 (proj2 (getRouteTarget_changes_only_rr (H := literal_urls)
           fresh_module secured_proxy no_resolvers (Some "example.com")
           (get "/x/y" "example.com") (Some new_response) eq_refl))).
Defined.

(** ** Redirects to HTTPS *)

Section Redirects.
Context `{Platform}.

(** [_getRouteTarget] changes neither the certificates nor the options of
    the instance. *)
Lemma getRouteTarget_frame (m : Module_) (this : ReverseProxy)
    (env : ResolverEnv) (src : option string) (req : Request)
    (res : option Response) :
  certs (_getRouteTarget m this env src req res).1.1.1.2 = certs this
  /\ letsencryptHost (_getRouteTarget m this env src req res).1.1.1.2
     = letsencryptHost this
  /\ opts_errorHandler (_getRouteTarget m this env src req res).1.1.1.2
     = opts_errorHandler this.
Proof.
  unfold _getRouteTarget.
  destruct (resolve m this env src (url req) req) as [m1 [[ref route]|]];
    [|cbn; auto].
  destruct (select_target route) as [target route'].
  destruct (store_route_frame ref route' m1 this) as (Hc & Hl & _ & He & _).
  destruct (store_route ref route' m1 this) as [m2 this2]; cbn in Hc, Hl, He.
  destruct target as [target|]; [|cbn; auto].
  destruct (opts route') as [o|]; [|cbn; auto].
  destruct (onRequest o) as [hook|]; [|cbn; auto].
  destruct (hook _ _ _) as [[req' res'] x]. cbn; auto.
Qed.

(** X12: an instance set up without [ssl] has no certificate table, and
    its listener never answers a request with the redirect to HTTPS,
    whatever the routes, their options and the resolvers are. *)
Theorem no_certificates_no_redirect (m : Module_) (this : ReverseProxy)
    (env : ResolverEnv) (req : Request) (res : Response) (target : Target) :
  certs this = None ->
  (httpServer_request m this env req res).2 <> RedirectedToHttps target.
Proof.
  intros Hc. unfold httpServer_request.
  destruct (getRouteTarget_frame m this env (_getSource this req) req (Some res))
    as (Hc1 & _).
  destruct (_getRouteTarget m this env (_getSource this req) req (Some res))
    as [[[[m1 this1] req1] res1] out]. cbn in Hc1. rewrite Hc in Hc1.
  destruct out as [[[route [|t]]|]|e]; cbn [snd]; try discriminate.
  - unfold redirect_or_forward, shouldRedirectToHttps. rewrite Hc1. discriminate.
  - unfold catch. cbn.
    destruct (opts_errorHandler this1); discriminate.
Qed.

(** X13: the redirect to HTTPS points at the host of the request, with
    the redirect port if there is one, and at the url the client asked for
    when the route's path is longer than one character, for then the
    original url was saved. On a route of path [/] nothing was saved, and
    the redirect points at the url as rewritten for the target. *)
Theorem redirect_location (this : ReverseProxy) (route : Route)
    (target : Target) (req : Request) (res : Response) (h : string) :
  _url req = None ->
  url req <> "" ->
  header_host req = Some h ->
  (redirectToHttps this (request_for_hook route target req) res).2
  = Returned
      (call (EndWith None)
         (call (WriteHead 302
                  (Some ("https://"
                         +:+ Path.join
                               [before_colon h
                                +:+ (if Js.truthy (ssl_redirect_port this)
                                     then ":" +:+ Js.or_else
                                                    (ssl_redirect_port this) ""
                                     else "");
                                if (1 <? String.length (path route))%nat
                                then url req
                                else url (prepend_target_path target req)])))
            res)).
Proof.
  intros Hsaved Hurl Hh. unfold redirectToHttps.
  assert (header_host
            (set_url (Js.or_else (_url (request_for_hook route target req))
                        (url (request_for_hook route target req)))
               (request_for_hook route target req)) = Some h) as ->.
  { unfold request_for_hook, prepend_target_path, strip_route_path.
    repeat match goal with
           | |- context [if ?b then _ else _] => destruct b
           end; exact Hh. }
  cbn [snd url set_url].
  unfold request_for_hook, strip_route_path.
  destruct (1 <? String.length (path route))%nat.
  - assert (forall r, _url r = Some (url req) ->
              Js.or_else (_url r) (url r) = url req) as Hgo.
    { intros r ->. cbn. destruct (String.eqb_spec (url req) ""); congruence. }
    rewrite Hgo; [reflexivity|]. unfold prepend_target_path.
    repeat match goal with
           | |- context [if ?b then _ else _] => destruct b
           end; reflexivity.
  - assert (forall r : Request, _url r = None ->
              Js.or_else (_url r) (url r) = url r) as Hgo
      by (intros r ->; reflexivity).
    rewrite Hgo.
    + destruct (useTargetHostHeader target); reflexivity.
    + unfold prepend_target_path.
      repeat match goal with
             | |- context [if ?b then _ else _] => destruct b
             end; exact Hsaved.
Qed.

End Redirects.

Lemma no_certificates_no_redirect_witness :
  certs one_route_proxy = None
  /\ (httpServer_request (H := literal_urls) fresh_module one_route_proxy
        no_resolvers (get "/a" "example.com") new_response).2
     <> RedirectedToHttps (mkTarget target_a true false).
Proof.
  split; [reflexivity|].
  apply (no_certificates_no_redirect (H := literal_urls)). reflexivity.
Defined.

Lemma redirect_location_witness :
  (redirectToHttps fresh_ssl_proxy
     (request_for_hook
        {| path := "/"; rr := Idx 0;
           urls := [mkTarget target_double_slash true false];
           opts := Some ssl_keys; proxy := Some DefaultProxy;
           isResolved := false |}
        (mkTarget target_double_slash true false)
        (get "/a" "example.com:80"))
     new_response).2
  = Returned
      (call (EndWith None)
         (call (WriteHead 302 (Some "https://example.com:443/foo/bar/a"))
            new_response)).
Proof.
  exact (redirect_location fresh_ssl_proxy
           {| path := "/"; rr := Idx 0;
              urls := [mkTarget target_double_slash true false];
              opts := Some ssl_keys; proxy := Some DefaultProxy;
              isResolved := false |}
           (mkTarget target_double_slash true false)
           (get "/a" "example.com:80") new_response "example.com:80"
           eq_refl ltac:(discriminate) eq_refl).
Defined.

(** ** The host header of the outgoing request *)

Section TargetHost.
Context `{Platform}.

(** X14: [useTargetHostHeader] does what it says, from the options to the
    outgoing request: for a target built with the options of a
    registration, the forwarder's [proxyReq] listener sets the [host]
    header of the outgoing request to the target's host exactly when the
    options have [useTargetHostHeader: true]; otherwise it leaves the
    headers alone. *)
Theorem useTargetHostHeader_sets_host (target : UrlArg) (o : option RouteOpts)
    (t : Target) (route : Route) (req : Request) (p : gmap string string) :
  buildTarget target o = Returned t ->
  req_host req = None ->
  on_proxyReq p (request_for_hook route t req)
  = if bool_decide (o ≫= opt_useTargetHostHeader = Some true)
    then <["host" := host (target_url t)]> p
    else p.
Proof.
  intros Hbt Hhost.
  assert (useTargetHostHeader t
          = bool_decide (o ≫= opt_useTargetHostHeader = Some true)) as <-.
  { unfold buildTarget in Hbt. outcome_unfold.
    destruct (prepareUrl target) as [u|]; [|discriminate].
    now injection Hbt as <-. }
  assert (req_host (prepend_target_path t (strip_route_path route req)) = None)
    as Hkept.
  { unfold prepend_target_path, strip_route_path.
    repeat match goal with
           | |- context [if ?b then _ else _] => destruct b
           end; exact Hhost. }
  unfold on_proxyReq, request_for_hook.
  destruct (useTargetHostHeader t); [reflexivity|]. now rewrite Hkept.
Qed.

End TargetHost.

Lemma useTargetHostHeader_sets_host_witness :
  on_proxyReq {[ "host" := "example.com" ]}
    (request_for_hook
       {| path := "/"; rr := Idx 0; urls := [mkTarget target_a false true];
          opts := Some no_opts; proxy := Some DefaultProxy;
          isResolved := false |}
       (mkTarget target_a false true) (get "/a" "example.com"))
  = {[ "host" := "10.0.0.1:8080" ]}.
Proof.
  rewrite (useTargetHostHeader_sets_host (H := literal_urls)
             (UrlObject target_a)
             (Some {| ssl := None; opt_useTargetHostHeader := Some true;
                      changeOrigin := None; onRequest := None;
                      onResponse := None; onError := None;
                      httpProxy := None |})
             (mkTarget target_a false true) _ (get "/a" "example.com")
             {[ "host" := "example.com" ]} eq_refl eq_refl).
  vm_compute. reflexivity.
Defined.

(** ** Resolvers, sources and forwarders *)

Lemma StronglySorted_list_filter {A} (R : relation A) (P : A -> Prop)
    `{!forall x, Decision (P x)} (l : list A) :
  StronglySorted R l -> StronglySorted R (filter P l).
Proof.
  induction 1 as [|x l Hl IH Hx]; [constructor|].
  rewrite filter_cons. destruct (decide (P x)); [|exact IH].
  constructor; [exact IH|].
  apply Forall_forall. intros y [_ Hy]%list_elem_of_filter.
  exact (proj1 (Forall_forall _ _) Hx y Hy).
Qed.

(** X15: [removeResolver] takes the resolver out of the pipeline wherever
    it stands, keeps every other resolver, and keeps the order of those
    that stay, so that a pipeline in descending order of priority stays so. *)
Theorem removeResolver_spec (this : ReverseProxy) (resolver : nat) :
  cluster_master this = false ->
  (resolver ∉ resolvers (removeResolver this resolver))
  /\ (forall r, r <> resolver ->
        (r ∈ resolvers (removeResolver this resolver) <-> r ∈ resolvers this))
  /\ resolvers (removeResolver this resolver) `sublist_of` resolvers this
  /\ (forall prio,
        descending_priority prio (resolvers this) ->
        descending_priority prio (resolvers (removeResolver this resolver))).
Proof.
  intros Hm. unfold removeResolver. rewrite Hm. cbn.
  split; [|split; [|split]].
  - rewrite list_elem_of_filter. tauto.
  - intros r Hr. rewrite list_elem_of_filter. tauto.
  - apply sublist_filter.
  - intros prio. unfold descending_priority. apply StronglySorted_list_filter.
Qed.

Lemma removeResolver_spec_witness :
  resolvers (removeResolver (addResolver fresh_module fresh_proxy [1; 2]).2 1)
  `sublist_of` resolvers (addResolver fresh_module fresh_proxy [1; 2]).2.
Proof.
  apply (removeResolver_spec (addResolver fresh_module fresh_proxy [1; 2]).2 1).
  reflexivity.
Defined.

Lemma prefix_app (p s : string) : String.prefix p (p +:+ s) = true.
Proof.
  induction p as [|c p IH]; [now destruct s|].
  change (String c p +:+ s) with (String c (p +:+ s)). cbn.
  destruct (ascii_dec c c); [exact IH|congruence].
Qed.

Lemma setHttp_idem (link : string) : setHttp (setHttp link) = setHttp link.
Proof.
  unfold setHttp.
  destruct (String.prefix "http://" link || String.prefix "https://" link)
    eqn:E; [now rewrite E|].
  now rewrite prefix_app.
Qed.

Section Sources.
Context `{Platform}.

(** X16: the scheme of a url given as a string is optional: a string that
    begins with neither [http://] nor [https://] is prepared, as a source
    and as a target, exactly as the same string behind [http://]. *)
Theorem scheme_is_optional (s : string) (o : option RouteOpts) :
  String.prefix "http://" s = false ->
  String.prefix "https://" s = false ->
  prepareUrl (UrlString s) = prepareUrl (UrlString ("http://" +:+ s))
  /\ buildTarget (UrlString s) o = buildTarget (UrlString ("http://" +:+ s)) o.
Proof.
  intros H1 H2.
  assert (setHttp s = "http://" +:+ s) as Hs
    by (unfold setHttp; now rewrite H1, H2).
  assert (prepareUrl (UrlString s) = prepareUrl (UrlString ("http://" +:+ s)))
    as Hp.
  { unfold prepareUrl. now rewrite <- Hs, setHttp_idem. }
  split; [exact Hp|]. unfold buildTarget. now rewrite Hp.
Qed.

End Sources.

Lemma scheme_is_optional_witness :
  prepareUrl (H := literal_urls) (UrlString "example.com")
  = prepareUrl (H := literal_urls) (UrlString "http://example.com").
Proof.
  exact (proj1 (scheme_is_optional (H := literal_urls) "example.com" None
                  eq_refl eq_refl)).
Defined.

Lemma before_colon_spec (s : string) :
  (s = before_colon s \/ exists rest, s = before_colon s +:+ ":" +:+ rest)
  /\ forall i, String.get i (before_colon s) <> Some ":"%char.
Proof.
  induction s as [|c s [IH1 IH2]].
  - split; [now left|]. intros i. now destruct i.
  - cbn [before_colon]. destruct (Ascii.eqb_spec c ":") as [->|Hc].
    + split; [right; now exists s|]. intros i. now destruct i.
    + split.
      * destruct IH1 as [<-|[rest Hrest]]; [now left|].
        right. exists rest.
        change (String c (before_colon s) +:+ ":" +:+ rest)
          with (String c (before_colon s +:+ ":" +:+ rest)).
        now rewrite <- Hrest.
      * intros [|i]; cbn; [congruence|apply IH2].
Qed.

(** X17: the source of a request is a [Host] header cut before its first
    colon, so it holds no port: the [X-Forwarded-Host] header if the
    instance prefers it and the header is there and not empty, else the
    [Host] header; with no usable header there is no source. *)
Theorem getSource_spec (this : ReverseProxy) (req : Request) (src : string) :
  _getSource this req = Some src ->
  (forall i, String.get i src <> Some ":"%char)
  /\ exists header,
       (header = src \/ exists rest, header = src +:+ ":" +:+ rest)
       /\ header <> ""
       /\ (if preferForwardedHost this
              && Js.truthy (header_x_forwarded_host req)
           then header_x_forwarded_host req = Some header
           else header_host req = Some header).
Proof.
  unfold _getSource.
  destruct (preferForwardedHost this && Js.truthy (header_x_forwarded_host req))
    eqn:E.
  - apply andb_true_iff in E as [_ E].
    destruct (header_x_forwarded_host req) as [hd|]; [|discriminate].
    intros [= <-]. split; [apply (proj2 (before_colon_spec hd))|].
    exists hd. split; [apply (proj1 (before_colon_spec hd))|].
    split; [|reflexivity].
    cbn in E. intros ->. discriminate.
  - destruct (Js.truthy (header_host req)) eqn:E'; [|discriminate].
    destruct (header_host req) as [hd|]; [|discriminate].
    intros [= <-]. split; [apply (proj2 (before_colon_spec hd))|].
    exists hd. split; [apply (proj1 (before_colon_spec hd))|].
    split; [|reflexivity].
    cbn in E'. intros ->. discriminate.
Qed.

Lemma getSource_spec_witness :
  _getSource fresh_proxy (get "/" "example.com:8080") = Some "example.com"
  /\ forall i, String.get i "example.com" <> Some ":"%char.
Proof.
  split; [reflexivity|].
  exact (proj1 (getSource_spec fresh_proxy (get "/" "example.com:8080")
                  "example.com" eq_refl)).
Defined.



Section Credentials.
Context `{Platform}.

(** X19: [register] never replaces or drops the credentials of a host:
    once a host has a secure context of its own, the certificate files
    named in later registrations, for this host or another, leave it as it
    is. *)
Theorem register_keeps_credentials (this this' : ReverseProxy)
    (src target : UrlArg) (o : option RouteOpts)
    (cs : gmap string CertEntry) (h : string) (k c a : option string) :
  register this src target o = Returned this' ->
  certs this = Some cs ->
  cs !! h = Some (Credentials k c a) ->
  exists cs', certs this' = Some cs' /\ cs' !! h = Some (Credentials k c a).
Proof.
  intros Hreg Hcs Hh. unfold register in Hreg.
  destruct (cluster_master this); [injection Hreg as <-; eauto|].
  outcome_unfold.
  destruct (arg_truthy src && arg_truthy target); [|discriminate].
  destruct (prepareUrl src) as [s|]; [|discriminate].
  destruct (buildTarget target o) as [t|]; [|discriminate].
  destruct (register_certs this s o) as [[this1|]|] eqn:Hc;
    [|injection Hreg as <-; eauto|discriminate].
  injection Hreg as <-.
  assert (exists cs', certs this1 = Some cs'
                      /\ cs' !! h = Some (Credentials k c a)) as (cs' & H1 & H2).
  { unfold register_certs in Hc. rewrite Hcs in Hc.
    destruct (decide (hostname s = h)) as [Heq|Hne].
    - rewrite Heq, Hh in Hc. outcome.
      repeat match type of Hc with
             | context [match ?x with _ => _ end] => destruct x
             end; try discriminate; injection Hc as <-; eauto.
    - outcome.
      repeat match type of Hc with
             | context [match ?x with _ => _ end] => destruct x
             end; try discriminate; injection Hc as <-; cbn;
        (eexists; split; [first [reflexivity|exact Hcs]|]);
        (exact Hh || now rewrite lookup_insert_ne). }
  exists cs'. split; [|exact H2].
  rewrite <- H1. unfold register_route. cbv zeta.
  destruct (find_route _ _) as [[i r]|]; [reflexivity|].
  destruct (getProxy_frame this1 s t o) as (_ & _ & Hcf).
  destruct (_getProxy this1 s t o) as [p this2]. exact Hcf.
Qed.

End Credentials.

Lemma register_keeps_credentials_witness :
  exists this' cs',
    register (H := literal_urls) secured_proxy (UrlObject example_src_x)
      (UrlObject target_a) (Some ssl_other_keys)
    = Returned this'
    /\ certs this' = Some cs'
    /\ cs' !! "example.com"
       = Some (Credentials (Some "k.pem") (Some "c.pem") None).
Proof.
  destruct (register (H := literal_urls) secured_proxy (UrlObject example_src_x)
              (UrlObject target_a) (Some ssl_other_keys))
    as [this'|e] eqn:Hr; [|vm_compute in Hr; discriminate].
  assert (({[ "example.com" :=
               Credentials (Some "k.pem") (Some "c.pem") None ]}
            : gmap string CertEntry) !! "example.com"
          = Some (Credentials (Some "k.pem") (Some "c.pem") None)) as Hl0
    by (vm_compute; reflexivity).
  destruct (register_keeps_credentials (H := literal_urls) secured_proxy this'
              _ _ _ _ "example.com" _ _ _ Hr eq_refl Hl0)
    as (cs' & Hc & Hl).
  exists this', cs'. auto.
Defined.

(** ** Routes made from a resolver's answer *)

Section RouteCache.
Context `{Platform}.


(** What [buildRoute] keeps in the cache has no options, and neither has
    a route it hands out of the cache. *)
Lemma buildRoute_without_opts (m m1 : Module_) (x : ResolverResult)
    (found : option (RouteRef * Route)) :
  cache_without_opts m ->
  buildRoute m x = Returned (m1, found) ->
  cache_without_opts m1
  /\ forall k route, found = Some (InCache k, route) -> opts route = None.
Proof.
  intros Hinv.
  destruct x as [|b|s|h i r0|r0|d]; cbn [buildRoute]; outcome_unfold;
    try (intros [= <- <-]; split; [exact Hinv|intros k route; discriminate]).
  - destruct (routeCache m !! s) as [entry|] eqn:Hl.
    + intros [= <- <-]. split; [exact Hinv|].
      intros k route [= <- <-]. exact (Hinv _ _ Hl).
    + destruct (buildTarget (UrlString s) None) as [t|]; [|discriminate].
      intros [= <- <-]. split; [|now intros k route [= <- <-]].
      intros k route. cbn. destruct (decide (s = k)) as [->|Hne].
      * rewrite lookup_insert_eq. now intros [= <-].
      * rewrite lookup_insert_ne by exact Hne. apply Hinv.
  - destruct (routeCache m !! hash d) as [entry|] eqn:Hl.
    + intros [= <- <-]. split; [exact Hinv|].
      intros k route [= <- <-]. exact (Hinv _ _ Hl).
    + destruct (d_url d) as [field|];
        [|intros [= <- <-]; split; [exact Hinv|intros k route; discriminate]].
      destruct (mapM _ _) as [ts|]; [|discriminate].
      intros [= <- <-]. split; [|now intros k route [= <- <-]].
      intros k route. cbn. destruct (decide (hash d = k)) as [->|Hne].
      * rewrite lookup_insert_eq. now intros [= <-].
      * rewrite lookup_insert_ne by exact Hne. apply Hinv.
Qed.

Lemma scan_results_without_opts (m : Module_) (url : string)
    (results : list ResolverResult) :
  cache_without_opts m ->
  cache_without_opts (scan_results m url results).1
  /\ forall k route,
       (scan_results m url results).2 = Some (InCache k, route) ->
       opts route = None.
Proof.
  revert m. induction results as [|x rest IH]; intros m Hinv;
    cbn [scan_results]; [split; [exact Hinv|intros k route; discriminate]|].
  destruct (answer_truthy x); [|now apply IH].
  destruct (buildRoute m x) as [[m1 found]|e] eqn:Hb;
    [|split; [exact Hinv|intros k route; discriminate]].
  destruct (buildRoute_without_opts m m1 x found Hinv Hb) as [Hinv1 Hfound].
  destruct found as [[ref route]|]; [|now apply IH].
  destruct (_ || _); [|now apply IH].
  split; [exact Hinv1|]. intros k r [= -> ->]. now apply (Hfound k).
Qed.

(** X21: a route that [buildRoute] makes from a string or a descriptor has
    no options, and a request that resolves to such a route is not
    forwarded: [_getRouteTarget] raises an exception, for want of a target
    if the route has none, and else at the look-up of the [onRequest] hook
    in the options the route does not have. The cache stays free of
    options, so this goes for every later request as well. *)
Theorem cached_route_is_not_served (m : Module_) (this : ReverseProxy)
    (env : ResolverEnv) (src : option string) (req : Request)
    (res : option Response) :
  cache_without_opts m ->
  cache_without_opts (_getRouteTarget m this env src req res).1.1.1.1
  /\ forall m1 k route,
       resolve m this env src (url req) req = (m1, Some (InCache k, route)) ->
       exists e, (_getRouteTarget m this env src req res).2 = Thrown e.
Proof.
  intros Hinv.
  assert (cache_without_opts (resolve m this env src (url req) req).1
          /\ forall k route,
               (resolve m this env src (url req) req).2
               = Some (InCache k, route) -> opts route = None)
    as [Hinv1 Hfound].
  { unfold resolve. destruct (mapM id _) as [results|e];
      [now apply scan_results_without_opts|].
    split; [exact Hinv|intros k route; discriminate]. }
  unfold _getRouteTarget.
  destruct (resolve m this env src (url req) req) as [m1 [[ref route]|]];
    cbn [fst snd] in *;
    [|split; [exact Hinv1|intros m2 k route; discriminate]].
  unfold select_target.
  assert (forall x, cache_without_opts
                      (store_route ref (set_rr x route) m1 this).1) as Hstore.
  { intros x. destruct ref as [h i|k|]; cbn; try exact Hinv1.
    intros k' r'. cbn. destruct (decide (k = k')) as [->|Hne].
    - rewrite lookup_insert_eq. intros [= <-]. cbn. now apply (Hfound k').
    - rewrite lookup_insert_ne by exact Hne. apply Hinv1. }
  split.
  - match goal with
    | |- context [store_route ref (set_rr ?x route) m1 this] =>
        specialize (Hstore x);
        destruct (store_route ref (set_rr x route) m1 this) as [m2 this2]
    end.
    cbn [fst] in Hstore.
    repeat match goal with
           | |- context [match ?x with _ => _ end] =>
               lazymatch x with
               | context [match _ with _ => _ end] => fail
               | _ => destruct x
               end
           end; exact Hstore.
  - intros m2 k route0 [= -> -> ->].
    match goal with
    | |- context [store_route (InCache k) (set_rr ?x route0) m2 this] =>
        destruct (store_route (InCache k) (set_rr x route0) m2 this)
          as [m3 this3]
    end.
    cbn [opts set_rr]. rewrite (Hfound k route0 eq_refl).
    repeat match goal with
           | |- context [match ?x with _ => _ end] =>
               lazymatch x with
               | context [match _ with _ => _ end] => fail
               | _ => destruct x
               end
           end; cbn; eauto.
Qed.

End RouteCache.


Lemma cached_route_is_not_served_witness :
  exists e,
    (_getRouteTarget (H := literal_urls)
       (addResolver fresh_module fresh_proxy [1]).1
       (addResolver fresh_module fresh_proxy [1]).2
       string_resolver (Some "example.com") (get "/a" "example.com")
       (Some new_response)).2
    = Thrown e.
Proof.
  destruct (cached_route_is_not_served (H := literal_urls)
              (addResolver fresh_module fresh_proxy [1]).1
              (addResolver fresh_module fresh_proxy [1]).2
              string_resolver (Some "example.com") (get "/a" "example.com")
              (Some new_response)) as [_ Hthrown].
  - intros k route Hl. vm_compute in Hl. discriminate.
  - eapply Hthrown. vm_compute. reflexivity.
Defined.

(** ** The end of a forwarding *)

(** X22: how a forwarded request ends does not depend on whether the
    listener waits for it: when the forwarding ends well, the route's
    [onResponse] hook is called if there is one, and nothing else; when it
    fails, the error goes to exactly one handler, the one the listener's
    [catch] picks (the route's [onError], else the instance's
    [errorHandler], else [handleProxyError]). *)
Theorem forwarding_outcome (this : ReverseProxy) (route : Route)
    (o : RouteOpts) (ev : ProxyEvent) (res : Response) :
  opts route = Some o ->
  forward_completion this route ev res
  = match ev with
    | ProxyEnd =>
        (res, match onResponse o with
              | Some hook => [ResponseHookCalled hook]
              | None => []
              end)
    | ProxyError err | ProxyEconnreset err =>
        ((catch this (Some route) err res).1,
         [Caught (catch this (Some route) err res).2])
    end.
Proof.
  intros Ho. unfold forward_completion, _createForwardDefer, then_onResponse,
    catch.
  rewrite Ho. cbn. rewrite ?Ho. cbn.
  destruct (onResponse o) as [hr|], (onError o) as [he|],
    (opts_errorHandler this) as [hg|], ev as [|err|err];
    repeat case_bool_decide; cbn; try reflexivity; exfalso;
    repeat match goal with
           | Hn : ~ is_Some (Some _) |- _ => apply Hn; eauto
           | Hs : is_Some None |- _ => destruct Hs; discriminate
           end.
Qed.

Lemma forwarding_outcome_witness :
  forward_completion fresh_proxy
    {| path := "/"; rr := Idx 0; urls := [mkTarget target_a false false];
       opts := Some with_onResponse; proxy := Some DefaultProxy;
       isResolved := false |}
    (ProxyError ECONNREFUSED) new_response
  = (handleProxyError ECONNREFUSED new_response,
     [Caught (DefaultErrorHandled ECONNREFUSED)]).
Proof.
  exact (forwarding_outcome fresh_proxy
           {| path := "/"; rr := Idx 0; urls := [mkTarget target_a false false];
              opts := Some with_onResponse; proxy := Some DefaultProxy;
              isResolved := false |}
           with_onResponse (ProxyError ECONNREFUSED) new_response eq_refl).
Defined.

(** ** Certificate bundles *)

Example unbundleCert_two_certificates :
  unbundleCert trim_ascii two_certificates
  = [String.concat newline
       ["-----BEGIN CERTIFICATE-----"; "QUJD"; "-----END CERTIFICATE-----"];
     String.concat newline
       ["-----BEGIN CERTIFICATE-----"; "REVG"; "-----END CERTIFICATE-----"]].
Proof. reflexivity. Qed.

Lemma contains_app_r (pattern a b : string) :
  contains pattern b = true -> contains pattern (a +:+ b) = true.
Proof.
  intros Hb. induction a as [|c a IH]; [exact Hb|].
  change (String c a +:+ b) with (String c (a +:+ b)).
  cbn [contains]. rewrite IH. apply orb_true_r.
Qed.

Lemma string_append_assoc (a b c : string) :
  (a +:+ b) +:+ c = a +:+ b +:+ c.
Proof.
  induction a as [|x a IH]; [reflexivity|].
  change ((String x a +:+ b) +:+ c) with (String x ((a +:+ b) +:+ c)).
  now rewrite IH.
Qed.

Lemma concat_snoc (sep : string) (xs : list string) (x : string) :
  exists front, String.concat sep (xs ++ [x]) = front +:+ x.
Proof.
  induction xs as [|y ys [front IH]]; [now exists ""|].
  destruct ys as [|z zs].
  - exists (y +:+ sep). cbn.
    now rewrite string_append_assoc.
  - exists (y +:+ sep +:+ front).
    change (String.concat sep ((y :: z :: zs) ++ [x]))
      with (y +:+ sep +:+ String.concat sep ((z :: zs) ++ [x])).
    rewrite IH. now rewrite !string_append_assoc.
Qed.

Section Unbundle.
Variable trim : string -> string.

Lemma unbundle_loop_length (chain cert ca : list string) :
  length (unbundle_loop trim chain cert ca)
  = length ca
    + length (filter (fun l => contains END_CERTIFICATE (trim l) = true) chain).
Proof.
  revert cert ca. induction chain as [|l chain IH]; intros cert ca;
    cbn [unbundle_loop]; [cbn; lia|].
  rewrite filter_cons.
  destruct (String.length (trim l) =? 0)%nat eqn:Hlen; cbn [negb].
  - rewrite IH. apply Nat.eqb_eq in Hlen.
    destruct (trim l); [|discriminate]. cbn.
    destruct (decide _) as [Hd|_]; [discriminate Hd|reflexivity].
  - destruct (contains END_CERTIFICATE (trim l)) eqn:Hc; rewrite IH.
    + rewrite decide_True by reflexivity. rewrite length_app. cbn. lia.
    + rewrite decide_False by discriminate. reflexivity.
Qed.

(** X23: [unbundleCert] returns as many certificates as the trimmed bundle
    has lines that hold the marker [-END CERTIFICATE-]: what comes after
    the last such line is dropped, and a bundle without the marker gives
    no certificate at all. *)
Theorem unbundleCert_count (bundle : string) :
  length (unbundleCert trim bundle)
  = length (filter (fun l => contains END_CERTIFICATE (trim l) = true)
              (split_lines (trim bundle))).
Proof. unfold unbundleCert. now rewrite unbundle_loop_length. Qed.

Lemma unbundle_loop_Forall (P : string -> Prop) (chain cert ca : list string) :
  (forall cert line, contains END_CERTIFICATE line = true ->
                     P (String.concat newline (cert ++ [line]))) ->
  Forall P ca -> Forall P (unbundle_loop trim chain cert ca).
Proof.
  intros HP. revert cert ca. induction chain as [|l chain IH]; intros cert ca Hca;
    cbn [unbundle_loop]; [exact Hca|].
  destruct (negb (negb _)); [now apply IH|].
  destruct (contains END_CERTIFICATE (trim l)) eqn:Hc; [|now apply IH].
  apply IH. apply Forall_app. split; [exact Hca|].
  constructor; [now apply HP|constructor].
Qed.

(** X24: every certificate that [unbundleCert] returns holds the marker
    [-END CERTIFICATE-], and is not empty. *)
Theorem unbundleCert_marker (bundle cert : string) :
  cert ∈ unbundleCert trim bundle ->
  contains END_CERTIFICATE cert = true /\ cert <> "".
Proof.
  revert cert. apply Forall_forall. unfold unbundleCert.
  apply unbundle_loop_Forall; [|constructor].
  intros cert line Hline.
  destruct (concat_snoc newline cert line) as [front ->].
  split; [now apply contains_app_r|].
  intros Hempty. pose proof (contains_app_r END_CERTIFICATE front line Hline) as Hc.
  rewrite Hempty in Hc. discriminate.
Qed.

End Unbundle.

Lemma unbundleCert_marker_witness :
  contains END_CERTIFICATE
    (String.concat newline
       ["-----BEGIN CERTIFICATE-----"; "REVG"; "-----END CERTIFICATE-----"])
  = true.
Proof.
  apply (unbundleCert_marker trim_ascii two_certificates).
  rewrite unbundleCert_two_certificates. set_solver.
Defined.

(** ** From registration to forwarding *)





Section RegisterAndServe.
Context `{Platform}.





End RegisterAndServe.



